(** * Netflix-IMDb-Extension: a model of [content.js]

    The content script keeps two module-level bindings, the rating cache and
    the debounce timer handle, works on the page's DOM, and reacts to two
    document-wide events.  This file embeds the script function by function and
    states the properties of the rating fetcher, the badge renderer and the
    hover controller over that embedding.

    Conventions of the model:
    - a JavaScript value is a [Value]; a number is kept as the text JavaScript
      prints for it, because the script only tests numbers for truthiness and
      interpolates them into text;
    - a title is a [string | null], written [option string];
    - a DOM element is a tree node with a stable handle [nodeId]; the nodes
      that exist are those of the document and of the subtrees that have been
      taken out of it, which a stored event may still point into; a reference
      that is used at once (the result of [querySelector] or [closest]) is the
      position of the node, a reference that is kept across other handlers (the
      target of a stored event) is the handle;
    - the host supplies three things the script relies on: the answers of the
      remote service, the HTML parser behind [innerHTML], and the timer queue,
      which runs on a logical clock counted in milliseconds;
    - an [async] function is run to completion in one step: the remote service
      is an oracle that answers at once. *)

From stdpp Require Import gmap strings list fin_maps.

Set Default Proof Using "Type".
Set Warnings "-register-all".
Open Scope string_scope.
Open Scope list_scope.
Open Scope nat_scope.

(** ** JavaScript values *)

Inductive Value : Type :=
  | VUndefined
  | VNull
  | VBool (b : bool)
  | VNum (printed : string)
  | VStr (s : string)
  | VArr (items : list Value)
  | VObj (fields : list (string * Value)).

(** ToBoolean.  [0], [-0] (printed [0]) and [NaN] are the falsy numbers. *)
Definition truthy (v : Value) : bool :=
  match v with
  | VUndefined | VNull => false
  | VBool b => b
  | VNum p => negb (String.eqb p "0") && negb (String.eqb p "NaN")
  | VStr s => negb (String.eqb s "")
  | VArr _ | VObj _ => true
  end.

(** [v === "..."] against a string literal. *)
Definition strictEqStr (v : Value) (lit : string) : bool :=
  match v with
  | VStr s => String.eqb s lit
  | _ => false
  end.

Fixpoint join (sep : string) (parts : list string) : string :=
  match parts with
  | [] => ""
  | [p] => p
  | p :: rest => (p ++ sep ++ join sep rest)%string
  end.

(** ToString, as a template literal applies it. *)
Fixpoint toString (v : Value) : string :=
  match v with
  | VUndefined => "undefined"
  | VNull => "null"
  | VBool true => "true"
  | VBool false => "false"
  | VNum p => p
  | VStr s => s
  | VArr items =>
      join "," (map (fun x => match x with
                              | VUndefined | VNull => ""
                              | _ => toString x
                              end) items)
  | VObj _ => "[object Object]"
  end.

(** [!title] for a [string | null]. *)
Definition titlePresent (title : option string) : bool :=
  match title with
  | Some t => negb (String.eqb t "")
  | None => false
  end.

Definition titleValue (title : option string) : Value :=
  match title with
  | Some t => VStr t
  | None => VNull
  end.

(** ** The DOM *)

(** An element: its handle, tag, class list, style table (under the style
    properties' CSS names), the text last assigned to [innerHTML], its child
    elements, and in [attributes] its content attributes other than [class] and
    [style], which the class list and the style table stand for (an empty one
    means the attribute is not there). *)
Inductive Element : Type :=
  mkElement (nodeId : nat) (tagName : string) (classList : list string)
            (attributes : list (string * string)) (style : list (string * string))
            (innerHTML : string) (children : list Element).

Definition nodeId (e : Element) : nat :=
  match e with mkElement i _ _ _ _ _ _ => i end.
Definition tagName (e : Element) : string :=
  match e with mkElement _ t _ _ _ _ _ => t end.
Definition classList (e : Element) : list string :=
  match e with mkElement _ _ c _ _ _ _ => c end.
Definition attributes (e : Element) : list (string * string) :=
  match e with mkElement _ _ _ a _ _ _ => a end.
Definition style (e : Element) : list (string * string) :=
  match e with mkElement _ _ _ _ s _ _ => s end.
Definition innerHTML (e : Element) : string :=
  match e with mkElement _ _ _ _ _ h _ => h end.
Definition children (e : Element) : list Element :=
  match e with mkElement _ _ _ _ _ _ cs => cs end.

Definition setChildren (cs : list Element) (e : Element) : Element :=
  match e with mkElement i t c a s h _ => mkElement i t c a s h cs end.

(** Assignment to one property of a string-keyed table (the [style] object). *)
Fixpoint setProp (k v : string) (table : list (string * string)) : list (string * string) :=
  match table with
  | [] => [(k, v)]
  | (k', v') :: rest =>
      if String.eqb k k' then (k, v) :: rest else (k', v') :: setProp k v rest
  end.

Fixpoint getProp (k : string) (table : list (string * string)) : option string :=
  match table with
  | [] => None
  | (k', v') :: rest => if String.eqb k k' then Some v' else getProp k rest
  end.

Definition setStyle (k v : string) (e : Element) : Element :=
  match e with mkElement i t c a s h cs => mkElement i t c a (setProp k v s) h cs end.

(** The text of a [style] attribute. *)
Fixpoint cssText (table : list (string * string)) : string :=
  match table with
  | [] => ""
  | (k, v) :: rest =>
      (k ++ ": " ++ v ++ ";"
         ++ match rest with
            | [] => ""
            | _ => " " ++ cssText rest
            end)%string
  end.

(** [e.getAttribute(name)]. *)
Definition getAttribute (name : string) (e : Element) : option string :=
  if String.eqb name "class" then
    match classList e with
    | [] => None
    | cl => Some (join " " cl)
    end
  else if String.eqb name "style" then
    match style e with
    | [] => None
    | st => Some (cssText st)
    end
  else getProp name (attributes e).

(** The two selector shapes the script uses: [.cls] and [[attr]]. *)
Inductive Selector : Type :=
  | ClassSel (cls : string)
  | AttrSel (attr : string).

Definition matches (sel : Selector) (e : Element) : bool :=
  match sel with
  | ClassSel cls => existsb (String.eqb cls) (classList e)
  | AttrSel attr =>
      match getAttribute attr e with
      | Some _ => true
      | None => false
      end
  end.

(** A position below an element: the child indices from it down to the node. *)
Definition Path : Type := list nat.

(** The search of [querySelector] through a list of siblings, the first of
    which has index [i]; [below] searches under one of them. *)
Definition firstMatch (sel : Selector) (below : Element -> option Path)
  : list Element -> nat -> option Path :=
  fix scan (l : list Element) (i : nat) : option Path :=
    match l with
    | [] => None
    | c :: l' =>
        if matches sel c then Some [i]
        else match below c with
             | Some p => Some (i :: p)
             | None => scan l' (S i)
             end
    end.

(** [e.querySelector(sel)]: the first proper descendant of [e], in document
    order, that matches; the result is its position below [e]. *)
Fixpoint querySelector (sel : Selector) (e : Element) : option Path :=
  match e with
  | mkElement _ _ _ _ _ _ cs => firstMatch sel (querySelector sel) cs 0
  end.

(** The proper descendants of an element, in document order. *)
Fixpoint descendants (e : Element) : list Element :=
  match e with
  | mkElement _ _ _ _ _ _ cs => flat_map (fun c => c :: descendants c) cs
  end.

(** Induction over an element with the property at hand for all its children. *)
Section ElementInduction.

Variable P : Element -> Prop.
Hypothesis node_case :
  forall i t c a s h cs, Forall P cs -> P (mkElement i t c a s h cs).

Fixpoint Element_children_ind (e : Element) : P e :=
  match e with
  | mkElement i t c a s h cs =>
      node_case i t c a s h cs
        ((fix all (l : list Element) : Forall P l :=
            match l with
            | [] => @List.Forall_nil _ P
            | x :: l' => @List.Forall_cons _ P x l' (Element_children_ind x) (all l')
            end) cs)
  end.

End ElementInduction.

(** All the descendants a selector matches, in document order
    ([e.querySelectorAll(sel)]). *)
Definition querySelectorAll (sel : Selector) (e : Element) : list Element :=
  List.filter (matches sel) (descendants e).

Fixpoint elementAt (p : Path) (e : Element) : option Element :=
  match p with
  | [] => Some e
  | i :: p' =>
      match children e !! i with
      | Some c => elementAt p' c
      | None => None
      end
  end.

(** Replace the node at position [p] by [f] of it. *)
Fixpoint updateAt (p : Path) (f : Element -> Element) (e : Element) : Element :=
  match p with
  | [] => f e
  | i :: p' =>
      match children e !! i with
      | Some c => setChildren (<[i := updateAt p' f c]> (children e)) e
      | None => e
      end
  end.

(** [node.remove()] for the node at position [p] below [e] ([p] is not empty: an
    element is never asked to remove itself from its own subtree). *)
Fixpoint removeAt (p : Path) (e : Element) : Element :=
  match p with
  | [] => e
  | [i] => setChildren (delete i (children e)) e
  | i :: p' =>
      match children e !! i with
      | Some c => setChildren (<[i := removeAt p' c]> (children e)) e
      | None => e
      end
  end.

(** [e.appendChild(c)]. *)
Definition appendChild (c : Element) (e : Element) : Element :=
  setChildren (children e ++ [c]) e.

(** The position, from the root, of the first node in document order that
    carries the handle [id]. *)
Fixpoint findNode (id : nat) (e : Element) : option Path :=
  match e with
  | mkElement i _ _ _ _ _ cs =>
      if Nat.eqb i id then Some []
      else
        (fix scan (l : list Element) (k : nat) : option Path :=
           match l with
           | [] => None
           | c :: l' =>
               match findNode id c with
               | Some p => Some (k :: p)
               | None => scan l' (S k)
               end
           end) cs 0
  end.

(** The positions of a node and of its ancestors, nearest first. *)
Fixpoint inclusiveAncestors (p : Path) : list Path :=
  match p with
  | [] => [[]]
  | i :: p' => map (cons i) (inclusiveAncestors p') ++ [[]]
  end.

(** [node.closest(sel)] for the node at position [p] of the document [doc]. *)
Definition closest (sel : Selector) (p : Path) (doc : Element) : option Path :=
  List.find (fun q => match elementAt q doc with
                      | Some e => matches sel e
                      | None => false
                      end) (inclusiveAncestors p).

(** What [querySelector] finds is the first of all the matches: taking it out
    of the tree takes it, and the matches below it, out of the list of them. *)
Definition FirstOfAll (sel : Selector) (e : Element) : Prop :=
  match querySelector sel e with
  | Some p =>
      exists b, elementAt p e = Some b ∧ matches sel b = true ∧
                querySelectorAll sel e
                = b :: querySelectorAll sel b ++ querySelectorAll sel (removeAt p e)
  | None => querySelectorAll sel e = []
  end.

(** An element and all that is below it, in document order. *)
Definition nodes (e : Element) : list Element := e :: descendants e.

(** Named access on the global object: the elements of the document that the
    name [x] stands for, which are those whose [id] is [x] and the [embed],
    [form], [img], [object], [iframe] and [frame] elements whose [name] is
    [x]. *)
Definition nameBearing : list string :=
  ["embed"; "form"; "img"; "object"; "iframe"; "frame"].

Definition named (x : string) (e : Element) : bool :=
  match getProp "id" (attributes e) with
  | Some v => String.eqb v x
  | None => false
  end
  || (existsb (String.eqb (tagName e)) nameBearing
      && match getProp "name" (attributes e) with
         | Some v => String.eqb v x
         | None => false
         end).

Definition namedElements (x : string) (doc : Element) : list nat :=
  map nodeId (List.filter (named x) (nodes doc)).

(** A node of one of several trees: the index of the tree and the position in
    it. *)
Definition NodeRef : Type := (nat * Path)%type.

Definition nodeAt (ref : NodeRef) (ts : list Element) : option Element :=
  match ts !! fst ref with
  | Some tree => elementAt (snd ref) tree
  | None => None
  end.

(** The first node, over the trees in order, that carries the handle [id];
    [k] is the index of the first tree. *)
Fixpoint findInTrees (id : nat) (ts : list Element) (k : nat) : option NodeRef :=
  match ts with
  | [] => None
  | tree :: rest =>
      match findNode id tree with
      | Some p => Some (k, p)
      | None => findInTrees id rest (S k)
      end
  end.

(** ** Program state and host state *)

(** A pointer event; the script reads nothing of it but its target. *)
Record MouseEvent : Type := mkMouseEvent { target : nat }.

(** The functions the script hands over as values: [debounce] is applied to
    [handleMouseOver] and to nothing else. *)
Inductive Func : Type := HandleMouseOver.

(** A timer of the host's queue.  Every timer of this script is created by a
    debounced function, so its callback is [() => func.apply(this, args)] for
    the stored [func] and [args]. *)
Record Timer : Type := mkTimer {
  timerId : nat;
  due : nat;
  callbackFunc : Func;
  callbackArgs : MouseEvent
}.

Inductive Error : Type :=
  | ReferenceError (name : string)
  | TypeError
  | NetworkError
  | SyntaxError.

(** What an identifier stands for: a value bound in the script, or, through
    named access on the global object, the elements of that name. *)
Inductive Binding : Type :=
  | Bound (v : Value)
  | Named (handles : list nat).

Record State : Type := mkState {
  (* module-level bindings of content.js *)
  ratingCache : gmap string Value;
  debounceTimer : option nat;
  (* host *)
  document : Element;
  detached : list Element;
  nextNodeId : nat;
  clock : nat;
  timers : list Timer;
  nextTimerId : nat;
  (* observations *)
  requests : list Binding;
  consoleErrors : list Error;
  enterCalls : list (nat * MouseEvent)
}.

Definition setRatingCache (c : gmap string Value) (s : State) : State :=
  mkState c (debounceTimer s) (document s) (detached s) (nextNodeId s) (clock s)
          (timers s) (nextTimerId s) (requests s) (consoleErrors s) (enterCalls s).
Definition setDebounceTimer (t : option nat) (s : State) : State :=
  mkState (ratingCache s) t (document s) (detached s) (nextNodeId s) (clock s)
          (timers s) (nextTimerId s) (requests s) (consoleErrors s) (enterCalls s).
Definition setDocument (d : Element) (s : State) : State :=
  mkState (ratingCache s) (debounceTimer s) d (detached s) (nextNodeId s) (clock s)
          (timers s) (nextTimerId s) (requests s) (consoleErrors s) (enterCalls s).
Definition setDetached (l : list Element) (s : State) : State :=
  mkState (ratingCache s) (debounceTimer s) (document s) l (nextNodeId s) (clock s)
          (timers s) (nextTimerId s) (requests s) (consoleErrors s) (enterCalls s).
Definition setNextNodeId (n : nat) (s : State) : State :=
  mkState (ratingCache s) (debounceTimer s) (document s) (detached s) n (clock s)
          (timers s) (nextTimerId s) (requests s) (consoleErrors s) (enterCalls s).
Definition setClock (t : nat) (s : State) : State :=
  mkState (ratingCache s) (debounceTimer s) (document s) (detached s) (nextNodeId s) t
          (timers s) (nextTimerId s) (requests s) (consoleErrors s) (enterCalls s).
Definition setTimers (ts : list Timer) (s : State) : State :=
  mkState (ratingCache s) (debounceTimer s) (document s) (detached s) (nextNodeId s)
          (clock s) ts (nextTimerId s) (requests s) (consoleErrors s) (enterCalls s).
Definition setNextTimerId (n : nat) (s : State) : State :=
  mkState (ratingCache s) (debounceTimer s) (document s) (detached s) (nextNodeId s)
          (clock s) (timers s) n (requests s) (consoleErrors s) (enterCalls s).
Definition setRequests (r : list Binding) (s : State) : State :=
  mkState (ratingCache s) (debounceTimer s) (document s) (detached s) (nextNodeId s)
          (clock s) (timers s) (nextTimerId s) r (consoleErrors s) (enterCalls s).
Definition setConsoleErrors (l : list Error) (s : State) : State :=
  mkState (ratingCache s) (debounceTimer s) (document s) (detached s) (nextNodeId s)
          (clock s) (timers s) (nextTimerId s) (requests s) l (enterCalls s).
Definition setEnterCalls (l : list (nat * MouseEvent)) (s : State) : State :=
  mkState (ratingCache s) (debounceTimer s) (document s) (detached s) (nextNodeId s)
          (clock s) (timers s) (nextTimerId s) (requests s) (consoleErrors s) l.

(** The state when the script has just been loaded into the page [doc]: an empty
    cache, [debounceTimer] undefined, nothing scheduled, nothing taken out of
    the document.  Handles from [freshFrom] on are free for the nodes the
    script creates. *)
Definition initialState (doc : Element) (freshFrom : nat) : State :=
  mkState ∅ None doc [] freshFrom 0 [] 1 [] [] [].

(** The trees the nodes live in: the document first, then the subtrees taken
    out of it. *)
Definition trees (s : State) : list Element := document s :: detached s.

(** ** Computations that may throw *)

Inductive Completion (A : Type) : Type :=
  | Normal (a : A)
  | Throw (e : Error).
Arguments Normal {A} a.
Arguments Throw {A} e.

Definition M (A : Type) : Type := State -> Completion A * State.

#[global] Instance M_ret : MRet M := fun A a s => (Normal a, s).
#[global] Instance M_bind : MBind M := fun A B f m s =>
  match m s with
  | (Normal a, s') => f a s'
  | (Throw e, s') => (Throw e, s')
  end.

Definition throw {A : Type} (e : Error) : M A := fun s => (Throw e, s).

(** [try { body } catch (error) { handler }]. *)
Definition tryCatch {A : Type} (body : M A) (handler : Error -> M A) : M A :=
  fun s => match body s with
           | (Normal a, s') => (Normal a, s')
           | (Throw e, s') => handler e s'
           end.

(** ** The host's services *)

(** What one [fetch] comes to: the promise rejects, or it resolves to a response
    whose body parses as JSON ([Some]) or does not ([None]). *)
Inductive FetchResult : Type :=
  | Rejected
  | Responded (body : option Value).

(** The service and the network, as an oracle: it sees the requests issued
    before and what is requested now, each request being the argument [fetch]
    was given, from which the host derives the address. *)
Definition Remote : Type := list Binding -> Binding -> FetchResult.

(** The HTML parser behind an assignment to [innerHTML]: the child elements
    the text gives rise to, with handles from the given one on.  Text without
    markup gives rise to none. *)
Definition Parser : Type := nat -> string -> list Element.

Section Script.

Context (remote : Remote) (parseHTML : Parser).

(** *** Rating fetcher *)

(** [fetch(input)]: one request is issued and recorded. *)
Definition fetch (input : Binding) : M (option Value) := fun s =>
  let s' := setRequests (requests s ++ [input]) s in
  match remote (requests s) input with
  | Rejected => (Throw NetworkError, s')
  | Responded body => (Normal body, s')
  end.

(** [response.json()]. *)
Definition json (response : option Value) : M Value :=
  match response with
  | Some v => mret v
  | None => throw SyntaxError
  end.

Fixpoint ownProperty (k : string) (fields : list (string * Value)) : option Value :=
  match fields with
  | [] => None
  | (k', v) :: rest => if String.eqb k k' then Some v else ownProperty k rest
  end.

(** [v.k] for the two property names the script reads, neither of which any
    prototype defines. *)
Definition member (v : Value) (k : string) : M Value :=
  match v with
  | VUndefined | VNull => throw TypeError
  | VObj fields => mret (default VUndefined (ownProperty k fields))
  | _ => mret VUndefined
  end.

(** The value bindings in scope inside [fetchRating]: the parameter and the
    module's one data constant.  (The other names in scope are the functions and
    host objects, which the model calls directly.)  The declaration of [apiUrl]
    on lines 40-42 is commented out, so the scope has no such name. *)
Definition scope (title : option string) : list (string * Value) :=
  [("title", titleValue title); ("OMDb_API_KEY", VStr "")].

(** Evaluation of an identifier reference: the script's own bindings first;
    failing those, the global object, where a name stands for the elements of
    the document that bear it; failing that too, a [ReferenceError]. *)
Definition identifier (env : list (string * Value)) (x : string) : M Binding := fun s =>
  match ownProperty x env with
  | Some v => (Normal (Bound v), s)
  | None =>
      match namedElements x (document s) with
      | [] => (Throw (ReferenceError x), s)
      | handles => (Normal (Named handles), s)
      end
  end.

Definition cacheHas (t : string) : M bool := fun s =>
  (Normal (bool_decide (is_Some (ratingCache s !! t))), s).
Definition cacheGet (t : string) : M Value := fun s =>
  (Normal (default VUndefined (ratingCache s !! t)), s).
Definition cacheSet (t : string) (v : Value) : M unit := fun s =>
  (Normal tt, setRatingCache (<[t := v]> (ratingCache s)) s).

(** [console.error("Error fetching IMDb rating:", error)]. *)
Definition consoleError (e : Error) : M unit := fun s =>
  (Normal tt, setConsoleErrors (consoleErrors s ++ [e]) s).

(** The condition of the [if] on lines 46-50, with its short-circuits. *)
Definition ratingFound (data : Value) : M bool :=
  flag ← member data "Response";
  if strictEqStr flag "True" then
    r ← member data "imdbRating";
    if truthy r then
      r' ← member data "imdbRating";
      mret (negb (strictEqStr r' "N/A"))
    else mret false
  else mret false.

(** The body of the [try] block, lines 40-59, under the bindings [env]. *)
Definition lookupRemote (env : list (string * Value)) (t : string) : M Value :=
  apiUrl ← identifier env "apiUrl";
  response ← fetch apiUrl;
  data ← json response;
  found ← ratingFound data;
  if found : bool then
    rating ← member data "imdbRating";
    _ ← cacheSet t rating;
    mret rating
  else
    _ ← cacheSet t (VStr "N/A");
    mret (VStr "N/A").

Definition fetchRating (title : option string) : M Value :=
  match title return M Value with
  | None => mret VNull
  | Some t =>
      if String.eqb t "" then mret VNull
      else
        hit ← cacheHas t;
        if hit : bool then cacheGet t
        else
          tryCatch (lookupRemote (scope title) t)
                   (fun error => _ ← consoleError error; mret VNull)
  end.

(** *** Badge renderer *)

Definition badgeSelector : Selector := ClassSel "imdb-rating-badge".

(** The badge [removeRating] would find and remove. *)
Definition existingBadge (targetElement : Element) : option Element :=
  match querySelector badgeSelector targetElement with
  | Some p => elementAt p targetElement
  | None => None
  end.

(** [removeRating(targetElement)], as the new content of the target. *)
Definition removeRating (targetElement : Element) : Element :=
  match querySelector badgeSelector targetElement with
  | Some existingBadge => removeAt existingBadge targetElement
  | None => targetElement
  end.

(** The badges a target carries: what the badge selector finds below it. *)
Definition badges (targetElement : Element) : list Element :=
  querySelectorAll badgeSelector targetElement.

(** Lines 77-85: the new [div].  The assignment to [innerHTML] on line 79 makes
    the parser's reading of the text the children of the badge. *)
Definition createBadge (id : nat) (rating : Value) : Element :=
  let html := ("&#9733; " ++ toString rating)%string in
  mkElement id "div" ["imdb-rating-badge"] []
            [("position", "absolute"); ("top", "8px"); ("right", "8px"); ("z-index", "100")]
            html (parseHTML (S id) html).

(** [displayRating(targetElement, rating)], as the new content of the target;
    [fresh] is the handle [document.createElement] gives the new node. *)
Definition displayRating (fresh : nat) (targetElement : Element) (rating : Value) : Element :=
  let cleared := removeRating targetElement in
  if negb (truthy rating) then cleared
  else appendChild (createBadge fresh rating) (setStyle "position" "relative" cleared).

(** Replace one of the trees. *)
Definition setTree (k : nat) (tree : Element) (s : State) : State :=
  match k with
  | 0 => setDocument tree s
  | S j => setDetached (<[j := tree]> (detached s)) s
  end.

(** Apply [f] to the node [ref] points to. *)
Definition updateNode (ref : NodeRef) (f : Element -> Element) (s : State) : State :=
  match trees s !! fst ref with
  | Some tree => setTree (fst ref) (updateAt (snd ref) f tree) s
  | None => s
  end.

(** A subtree that has been removed goes on existing outside the document. *)
Definition detach (removed : option Element) (s : State) : State :=
  match removed with
  | Some e => setDetached (detached s ++ [e]) s
  | None => s
  end.

(** The same two routines acting on the node a reference points to. *)
Definition removeRatingAt (card : NodeRef) : M unit := fun s =>
  (Normal tt,
   detach (nodeAt card (trees s) ≫= existingBadge) (updateNode card removeRating s)).

Definition displayRatingAt (card : NodeRef) (rating : Value) : M unit := fun s =>
  let fresh := nextNodeId s in
  let s' := detach (nodeAt card (trees s) ≫= existingBadge)
                   (updateNode card (fun e => displayRating fresh e rating) s) in
  (Normal tt,
   if truthy rating
   then setNextNodeId (fresh + length (nodes (createBadge fresh rating))) s'
   else s').

(** *** Hover controller *)

Definition getTrees : M (list Element) := fun s => (Normal (trees s), s).
Definition getDebounceTimer : M (option nat) := fun s => (Normal (debounceTimer s), s).
Definition putDebounceTimer (id : nat) : M unit := fun s =>
  (Normal tt, setDebounceTimer (Some id) s).

(** [event.target.closest(sel)]: the target is looked up among the nodes that
    exist, in the document or out of it, and its ancestors are those it has in
    the tree it is in. *)
Definition closestTo (sel : Selector) (event : MouseEvent) (ts : list Element)
  : option NodeRef :=
  match findInTrees (target event) ts 0 with
  | Some (k, p) =>
      match ts !! k with
      | Some tree =>
          match closest sel p tree with
          | Some q => Some (k, q)
          | None => None
          end
      | None => None
      end
  | None => None
  end.

(** [clearTimeout(id)]: an undefined, fired or cleared handle does nothing. *)
Definition clearTimeout (id : option nat) : M unit := fun s =>
  match id with
  | Some i => (Normal tt, setTimers (filter (fun t => timerId t ≠ i) (timers s)) s)
  | None => (Normal tt, s)
  end.

(** [setTimeout(() => func.apply(this, args), delay)]; the result is the new
    timer's handle. *)
Definition setTimeout (func : Func) (args : MouseEvent) (delay : nat) : M nat := fun s =>
  let id := nextTimerId s in
  (Normal id,
   setNextTimerId (S id)
     (setTimers (timers s ++ [mkTimer id (clock s + delay) func args]) s)).

(** [debounce(func, delay)]: the function it returns, applied to [args]. *)
Definition debounce (func : Func) (delay : nat) (args : MouseEvent) : M unit :=
  pending ← getDebounceTimer;
  _ ← clearTimeout pending;
  id ← setTimeout func args delay;
  putDebounceTimer id.

Definition handleMouseOver (event : MouseEvent) : M unit :=
  ts ← getTrees;
  match closestTo (ClassSel "slider-item") event ts with
  | Some movieCard =>
      let titleElement :=
        match nodeAt movieCard ts with
        | Some card =>
            match querySelector (AttrSel "aria-label") card with
            | Some te => elementAt te card
            | None => None
            end
        | None => None
        end in
      let title :=
        match titleElement with
        | Some te => getAttribute "aria-label" te
        | None => None
        end in
      if titlePresent title then
        rating ← fetchRating title;
        if truthy rating then displayRatingAt movieCard rating
        else mret tt
      else mret tt
  | None => mret tt
  end.

Definition handleMouseOut (event : MouseEvent) : M unit :=
  ts ← getTrees;
  match closestTo (ClassSel "slider-item") event ts with
  | Some movieCard =>
      pending ← getDebounceTimer;
      _ ← clearTimeout pending;
      removeRatingAt movieCard
  | None => mret tt
  end.

(** *** The host's event loop *)

(** [func.apply(this, args)]. *)
Definition apply (func : Func) (args : MouseEvent) : M unit :=
  match func with
  | HandleMouseOver => handleMouseOver args
  end.

(** The arrow function of lines 17-19.  The call it makes is recorded with the
    time it is made at. *)
Definition timerCallback (t : Timer) : M unit := fun s =>
  apply (callbackFunc t) (callbackArgs t)
        (setEnterCalls (enterCalls s ++ [(clock s, callbackArgs t)]) s).

(** One timer comes due: unless it was cleared meanwhile, it leaves the queue
    and its callback runs at its due time. *)
Definition fireTimer (s : State) (t : Timer) : State :=
  if existsb (fun t' => Nat.eqb (timerId t') (timerId t)) (timers s) then
    snd (timerCallback t
           (setClock (due t)
              (setTimers (filter (fun t' => timerId t' ≠ timerId t) (timers s)) s)))
  else s.

(** [dt] milliseconds pass: the timers due by then fire, oldest first (all the
    script's timers have the same delay, so the queue is in due order). *)
Definition advance (dt : nat) (s : State) : State :=
  let deadline := clock s + dt in
  setClock deadline
    (foldl fireTimer s (filter (fun t => due t ≤ deadline) (timers s))).

Inductive Input : Type :=
  | MouseOver (event : MouseEvent)
  | MouseOut (event : MouseEvent).

(** The listeners registered on lines 144-145. *)
Definition quietPeriod : nat := 300.

Definition listener (i : Input) : M unit :=
  match i with
  | MouseOver event => debounce HandleMouseOver quietPeriod event
  | MouseOut event => handleMouseOut event
  end.

(** An input arrives [dt] milliseconds after the one before. *)
Definition step (s : State) (x : nat * Input) : State :=
  snd (listener (snd x) (advance (fst x) s)).

Definition run (s : State) (trace : list (nat * Input)) : State :=
  foldl step s trace.

End Script.

(** Two states that differ at most in the cache, the request log and the
    console. *)
Definition sameHost (s s' : State) : Prop :=
  debounceTimer s' = debounceTimer s ∧ timers s' = timers s ∧
  clock s' = clock s ∧ nextTimerId s' = nextTimerId s ∧
  document s' = document s ∧ detached s' = detached s ∧
  nextNodeId s' = nextNodeId s ∧ enterCalls s' = enterCalls s.

(** Whatever is scheduled is the one timer [debounceTimer] refers to. *)
Definition TimerInvariant (s : State) : Prop :=
  timers s = [] ∨ exists t, timers s = [t] ∧ debounceTimer s = Some (timerId t).

(** A burst of pointer-enter events, each with its distance from the one before. *)
Definition mouseOvers (burst : list (nat * MouseEvent)) : list (nat * Input) :=
  map (fun x => (fst x, MouseOver (snd x))) burst.

(** Calls of [fetchRating] one after the other. *)
Definition fetchEach (remote : Remote) (s : State) (titles : list (option string)) : State :=
  foldl (fun s0 title => snd (fetchRating remote title s0)) s titles.

(** The invocations a run of pointer-enter events brings when each comes at
    least the quiet period after the one before: [pending] is the event
    scheduled at time [now], and every event but the last has its invocation
    before the next one arrives. *)
Fixpoint slowCalls (now : nat) (pending : MouseEvent) (burst : list (nat * MouseEvent))
  : list (nat * MouseEvent) :=
  match burst with
  | [] => []
  | (d, e) :: rest => (now + quietPeriod, pending) :: slowCalls (now + d) e rest
  end.

(** ** Sample inputs *)

(** A service that knows the title: [{Response:"True", imdbRating:"8.4"}]. *)
Definition ratedRemote : Remote := fun _ _ =>
  Responded (Some (VObj [("Response", VStr "True"); ("imdbRating", VStr "8.4")])).

(** A service that does not: [{Response:"False"}]. *)
Definition notFoundRemote : Remote := fun _ _ =>
  Responded (Some (VObj [("Response", VStr "False")])).

(** A network that is down. *)
Definition failingRemote : Remote := fun _ _ => Rejected.

(** A service that answers with a page of text, and one that answers [null]. *)
Definition garbledRemote : Remote := fun _ _ => Responded None.
Definition nullRemote : Remote := fun _ _ => Responded (Some VNull).

(** The parser on the texts the samples assign: the one rating that carries
    markup gives its element; the others are plain text and give none. *)
Definition markupRating : string := "<b class='imdb-rating-badge'>9</b>".

Definition sampleParser : Parser := fun fresh html =>
  if String.eqb html ("&#9733; " ++ markupRating)%string
  then [mkElement fresh "b" ["imdb-rating-badge"] [] [] "9" []]
  else [].

(** A page with one card, whose link carries the title. *)
Definition sampleCard (kids : list Element) : Element :=
  mkElement 1 "div" ["slider-item"] [] [] "" kids.
Definition sampleLink : Element :=
  mkElement 2 "a" [] [("aria-label", "Title A")] [] "" [].
Definition samplePage : Element :=
  mkElement 0 "html" [] [] [] "" [sampleCard [sampleLink]].

(** The same page with an element whose [id] is the name the script leaves
    undeclared. *)
Definition namedPage : Element :=
  mkElement 0 "html" [] [] [] ""
            [sampleCard [sampleLink]; mkElement 7 "div" [] [("id", "apiUrl")] [] "" []].

(** The sample page once a badge has been attached to the card. *)
Definition badgedPage : Element :=
  mkElement 0 "html" [] [] [] ""
            [sampleCard [sampleLink; createBadge sampleParser 4 (VStr "8.4")]].

(** A card inside a card. *)
Definition innerCard : Element :=
  mkElement 3 "div" ["slider-item"] [] [] "" [].

(** A page whose card holds, after its own link, a second card with a link of
    its own; the page also has an element of the undeclared name. *)
Definition nestedPage : Element :=
  mkElement 0 "html" [] [] [] ""
    [mkElement 1 "div" ["slider-item"] [] [] ""
       [sampleLink;
        mkElement 3 "div" ["slider-item"] [] [] ""
          [mkElement 4 "a" [] [("aria-label", "Title B")] [] "" []]];
     mkElement 7 "div" [] [("id", "apiUrl")] [] "" []].

(** * Properties *)

(** ** Rating fetcher *)

Lemma sameHost_refl (s : State) : sameHost s s.
Proof. repeat split. Qed.

Section FetcherFacts.

Context (remote : Remote).

(** On a page without an element of that name, the [try] block stops at its
    first expression: [apiUrl] resolves to nothing, so the argument of [fetch]
    throws and no request leaves. *)
Lemma lookupRemote_unresolved (title : option string) (t : string) (s : State) :
  namedElements "apiUrl" (document s) = [] ->
  lookupRemote remote (scope title) t s = (Throw (ReferenceError "apiUrl"), s).
Proof.
  intros Hnone. unfold lookupRemote, mbind, M_bind, identifier.
  simpl. rewrite Hnone. reflexivity.
Qed.

(** What the [try] block comes to, under any bindings: when it completes it
    has issued one request and stored what it returns, a truthy value, under
    the title; when it throws it has stored nothing. *)
Lemma lookupRemote_outcome (env : list (string * Value)) (t : string) (s : State) :
  match lookupRemote remote env t s with
  | (Normal v, s1) =>
      ratingCache s1 = <[t := v]> (ratingCache s) ∧ truthy v = true ∧
      (exists input, requests s1 = requests s ++ [input]) ∧
      consoleErrors s1 = consoleErrors s ∧ sameHost s s1
  | (Throw e, s1) =>
      ratingCache s1 = ratingCache s ∧
      (requests s1 = requests s ∨ exists input, requests s1 = requests s ++ [input]) ∧
      consoleErrors s1 = consoleErrors s ∧ sameHost s s1
  end.
Proof.
  assert (forall input,
    match (response ← fetch remote input;
           data ← json response;
           found ← ratingFound data;
           if found : bool then
             rating ← member data "imdbRating";
             _ ← cacheSet t rating;
             mret rating
           else
             _ ← cacheSet t (VStr "N/A");
             mret (VStr "N/A")) s with
    | (Normal v, s1) =>
        ratingCache s1 = <[t := v]> (ratingCache s) ∧ truthy v = true ∧
        (exists input, requests s1 = requests s ++ [input]) ∧
        consoleErrors s1 = consoleErrors s ∧ sameHost s s1
    | (Throw e, s1) =>
        ratingCache s1 = ratingCache s ∧
        (requests s1 = requests s ∨ exists input, requests s1 = requests s ++ [input]) ∧
        consoleErrors s1 = consoleErrors s ∧ sameHost s s1
    end) as Hfetch.
  { intros input. unfold mbind, M_bind, fetch.
    destruct (remote (requests s) input) as [|[data|]].
    - simpl. repeat split. right. eexists. reflexivity.
    - destruct data as [| | b | n | str | items | fields];
        try (simpl; repeat split; try (right; eexists; reflexivity);
             try (eexists; reflexivity)).
      unfold json, ratingFound, member, mbind, M_bind, mret, M_ret.
      destruct (strictEqStr (default VUndefined (ownProperty "Response" fields)) "True");
        [|simpl; repeat split; eexists; reflexivity].
      destruct (truthy (default VUndefined (ownProperty "imdbRating" fields))) eqn:Htruthy;
        [|simpl; repeat split; eexists; reflexivity].
      destruct (strictEqStr (default VUndefined (ownProperty "imdbRating" fields)) "N/A");
        simpl; repeat split; try exact Htruthy; eexists; reflexivity.
    - simpl. repeat split. right. eexists. reflexivity. }
  unfold lookupRemote. unfold mbind at 1. unfold M_bind at 1. unfold identifier.
  destruct (ownProperty "apiUrl" env) as [v|]; [apply Hfetch|].
  destruct (namedElements "apiUrl" (document s)) as [|h hs]; [|apply Hfetch].
  repeat split. left. reflexivity.
Qed.

Lemma cacheHas_true (t : string) (v : Value) (s : State) :
  ratingCache s !! t = Some v -> cacheHas t s = (Normal true, s).
Proof. intros H. unfold cacheHas. rewrite H. reflexivity. Qed.

Lemma cacheHas_false (t : string) (s : State) :
  ratingCache s !! t = None -> cacheHas t s = (Normal false, s).
Proof. intros H. unfold cacheHas. rewrite H. reflexivity. Qed.

Lemma nonempty_eqb (t : string) : t ≠ "" -> String.eqb t "" = false.
Proof. intros H. apply String.eqb_neq. exact H. Qed.

(** The ways out of [fetchRating]. *)
Lemma fetchRating_absent (title : option string) (s : State) :
  titlePresent title = false -> fetchRating remote title s = (Normal VNull, s).
Proof.
  destruct title as [t|]; simpl; [|reflexivity].
  intros H. apply negb_false_iff in H. rewrite H. reflexivity.
Qed.

Lemma fetchRating_hit (t : string) (v : Value) (s : State) :
  t ≠ "" -> ratingCache s !! t = Some v ->
  fetchRating remote (Some t) s = (Normal v, s).
Proof.
  intros Ht Hc. unfold fetchRating. rewrite (nonempty_eqb t Ht).
  unfold mbind, M_bind. rewrite (cacheHas_true t v s Hc).
  unfold cacheGet. rewrite Hc. reflexivity.
Qed.

(** A miss hands over to the [try] block and its [catch]. *)
Lemma fetchRating_lookup (t : string) (s : State) :
  t ≠ "" -> ratingCache s !! t = None ->
  fetchRating remote (Some t) s
  = match lookupRemote remote (scope (Some t)) t s with
    | (Normal v, s1) => (Normal v, s1)
    | (Throw e, s1) => (Normal VNull, setConsoleErrors (consoleErrors s1 ++ [e]) s1)
    end.
Proof.
  intros Ht Hc. unfold fetchRating. rewrite (nonempty_eqb t Ht).
  unfold mbind at 1. unfold M_bind at 1. rewrite (cacheHas_false t s Hc).
  unfold tryCatch.
  destruct (lookupRemote remote (scope (Some t)) t s) as [[v|e] s1]; reflexivity.
Qed.

Lemma fetchRating_miss (t : string) (s : State) :
  t ≠ "" -> ratingCache s !! t = None ->
  namedElements "apiUrl" (document s) = [] ->
  fetchRating remote (Some t) s
  = (Normal VNull, setConsoleErrors (consoleErrors s ++ [ReferenceError "apiUrl"]) s).
Proof.
  intros Ht Hc Hnone. rewrite (fetchRating_lookup t s Ht Hc).
  rewrite (lookupRemote_unresolved (Some t) t s Hnone). reflexivity.
Qed.

(** Whatever the path, a call touches nothing but the cache, the request log
    and the console, and in the cache nothing but the entry of its title. *)
Lemma fetchRating_frame (title : option string) (s : State) :
  let s' := snd (fetchRating remote title s) in
  sameHost s s' ∧
  forall k : string, title ≠ Some k -> ratingCache s' !! k = ratingCache s !! k.
Proof.
  destruct (titlePresent title) eqn:Hp.
  - destruct title as [t|]; [|discriminate].
    assert (t ≠ "") as Ht.
    { intros ->. discriminate. }
    destruct (ratingCache s !! t) as [v|] eqn:Hc.
    + rewrite (fetchRating_hit t v s Ht Hc). simpl. split; [apply sameHost_refl | reflexivity].
    + rewrite (fetchRating_lookup t s Ht Hc).
      pose proof (lookupRemote_outcome (scope (Some t)) t s) as Hout.
      destruct (lookupRemote remote (scope (Some t)) t s) as [[v|e] s1]; simpl.
      * destruct Hout as (Hcache & _ & _ & _ & Hhost). split; [exact Hhost|].
        intros k Hk. rewrite Hcache. apply lookup_insert_ne. congruence.
      * destruct Hout as (Hcache & _ & _ & Hhost). split; [exact Hhost|].
        intros k _. rewrite Hcache. reflexivity.
  - rewrite (fetchRating_absent title s Hp). simpl.
    split; [apply sameHost_refl | reflexivity].
Qed.

(** On a page without an element named [apiUrl] a call leaves the cache and the
    request log as they were. *)
Lemma fetchRating_quiet (title : option string) (s : State) :
  namedElements "apiUrl" (document s) = [] ->
  ratingCache (snd (fetchRating remote title s)) = ratingCache s ∧
  requests (snd (fetchRating remote title s)) = requests s.
Proof.
  intros Hnone. destruct (titlePresent title) eqn:Hp.
  - destruct title as [t|]; [|discriminate].
    assert (t ≠ "") as Ht.
    { intros ->. discriminate. }
    destruct (ratingCache s !! t) as [v|] eqn:Hc.
    + rewrite (fetchRating_hit t v s Ht Hc). split; reflexivity.
    + rewrite (fetchRating_miss t s Ht Hc Hnone). split; reflexivity.
  - rewrite (fetchRating_absent title s Hp). split; reflexivity.
Qed.

End FetcherFacts.

(** The condition of lines 46-50 on some response bodies. *)
Example ratingFound_rated (s : State) :
  ratingFound (VObj [("Response", VStr "True"); ("imdbRating", VStr "8.4")]) s
  = (Normal true, s).
Proof. reflexivity. Qed.

Example ratingFound_unknown_marker (s : State) :
  ratingFound (VObj [("Response", VStr "True"); ("imdbRating", VStr "N/A")]) s
  = (Normal false, s).
Proof. reflexivity. Qed.

Example ratingFound_missing_field (s : State) :
  ratingFound (VObj [("Response", VStr "True")]) s = (Normal false, s).
Proof. reflexivity. Qed.

Example ratingFound_null_body (s : State) :
  ratingFound VNull s = (Throw TypeError, s).
Proof. reflexivity. Qed.

(** Where the defect sits.  Under bindings that do declare [apiUrl], as lines
    40-42 would, the rest of the [try] block does what its comments say: it
    stores and returns the rating, or the "N/A" sentinel. *)
Example lookupRemote_with_declaration :
  let env := ("apiUrl", VStr "https://www.omdbapi.com/?t=Title%20A&apikey=")
               :: scope (Some "Title A") in
  let s := initialState samplePage 10 in
  (let r := lookupRemote ratedRemote env "Title A" s in
   fst r = Normal (VStr "8.4") ∧
   ratingCache (snd r) !! "Title A" = Some (VStr "8.4") ∧
   length (requests (snd r)) = 1) ∧
  (let r := lookupRemote notFoundRemote env "Title A" s in
   fst r = Normal (VStr "N/A") ∧
   ratingCache (snd r) !! "Title A" = Some (VStr "N/A")) ∧
  (let r := lookupRemote failingRemote env "Title A" s in
   fst r = Throw NetworkError ∧ ratingCache (snd r) = ratingCache s).
Proof. repeat split. Qed.

(** C1, as the code stands.  The service would answer
    [{Response:"True", imdbRating:"8.4"}] for "Title A", but on an empty cache
    [fetchRating("Title A")] resolves to [null], stores nothing under the title
    and issues no request: the success branch of lines 46-54 is never reached. *)
Theorem fetchRating_rated_title_not_stored :
  let s := initialState samplePage 10 in
  let r := fetchRating ratedRemote (Some "Title A") s in
  fst r = Normal VNull ∧
  ratingCache (snd r) !! "Title A" = None ∧
  requests (snd r) = [] ∧
  consoleErrors (snd r) = [ReferenceError "apiUrl"].
Proof.
  intros s r. subst r.
  rewrite (fetchRating_miss ratedRemote "Title A" s);
    [| discriminate | reflexivity | reflexivity].
  repeat split.
Qed.

(** C2, refuted as stated.  On a page that has an element whose [id] is
    [apiUrl], the name resolves through the global object, [fetch] is called
    with that element, and [fetchRating("Title A")] on an empty cache issues a
    request, stores "8.4" and resolves to it: the [catch] branch is not
    reached. *)
Lemma fetchRating_named_element_reaches_service :
  let r := fetchRating ratedRemote (Some "Title A") (initialState namedPage 10) in
  fst r = Normal (VStr "8.4") ∧
  ratingCache (snd r) !! "Title A" = Some (VStr "8.4") ∧
  requests (snd r) = [Named [7]] ∧
  consoleErrors (snd r) = [].
Proof. repeat split. Qed.

(** C2, amended.  On a page that has no element named [apiUrl], for a
    non-empty title that the cache does not hold, the [try] block throws at the
    unresolved [apiUrl] before any request is issued, the [catch] branch runs,
    and [fetchRating] resolves to [null] with the cache as it was; on such a
    page no call of [fetchRating] whatsoever writes the cache or issues a
    request. *)
Theorem fetchRating_uncached_always_null (remote : Remote) (t : string) (s : State) :
  namedElements "apiUrl" (document s) = [] ->
  t ≠ "" -> ratingCache s !! t = None ->
  lookupRemote remote (scope (Some t)) t s = (Throw (ReferenceError "apiUrl"), s) ∧
  fetchRating remote (Some t) s
  = (Normal VNull, setConsoleErrors (consoleErrors s ++ [ReferenceError "apiUrl"]) s) ∧
  ratingCache (snd (fetchRating remote (Some t) s)) = ratingCache s ∧
  requests (snd (fetchRating remote (Some t) s)) = requests s ∧
  (forall (title : option string) (s0 : State),
      namedElements "apiUrl" (document s0) = [] ->
      ratingCache (snd (fetchRating remote title s0)) = ratingCache s0 ∧
      requests (snd (fetchRating remote title s0)) = requests s0).
Proof.
  intros Hnone Ht Hc.
  split; [apply lookupRemote_unresolved; exact Hnone|].
  split; [apply fetchRating_miss; assumption|].
  split; [apply fetchRating_quiet; exact Hnone|].
  split; [apply fetchRating_quiet; exact Hnone|].
  intros title s0 Hnone0. apply fetchRating_quiet. exact Hnone0.
Qed.

(** On the sample page: "Title A" is not cached and the call comes back [null]. *)
Lemma fetchRating_uncached_always_null_witness :
  namedElements "apiUrl" (document (initialState samplePage 10)) = [] ∧
  "Title A" ≠ "" ∧
  ratingCache (initialState samplePage 10) !! "Title A" = None ∧
  fetchRating ratedRemote (Some "Title A") (initialState samplePage 10)
  = (Normal VNull,
     setConsoleErrors [ReferenceError "apiUrl"] (initialState samplePage 10)).
Proof.
  split; [reflexivity|]. split; [discriminate|]. split; [reflexivity|].
  apply (fetchRating_uncached_always_null ratedRemote "Title A"
           (initialState samplePage 10));
    [reflexivity | discriminate | reflexivity].
Defined.

Lemma fetchEach_keeps_entry (remote : Remote) (t : string) (v : Value)
    (between : list (option string)) (s : State) :
  t ≠ "" -> ratingCache s !! t = Some v ->
  ratingCache (fetchEach remote s between) !! t = Some v.
Proof.
  intros Ht. revert s. induction between as [|title rest IH]; intros s Hc; [exact Hc|].
  simpl. apply IH.
  destruct (decide (title = Some t)) as [-> | Hother].
  - rewrite (fetchRating_hit remote t v s Ht Hc). exact Hc.
  - destruct (fetchRating_frame remote title s) as [_ Hframe].
    rewrite Hframe by exact Hother. exact Hc.
Qed.

Lemma fetchEach_quiet (remote : Remote) (between : list (option string)) (s : State) :
  namedElements "apiUrl" (document s) = [] ->
  requests (fetchEach remote s between) = requests s.
Proof.
  revert s. induction between as [|title rest IH]; intros s Hnone; [reflexivity|].
  simpl. destruct (fetchRating_frame remote title s) as [Hhost _].
  destruct Hhost as (_ & _ & _ & _ & Hdoc & _).
  rewrite IH by (rewrite Hdoc; exact Hnone).
  apply fetchRating_quiet. exact Hnone.
Qed.

(** On a page that does have an element named [apiUrl], a call in between for
    a title the cache does not hold issues a request. *)
Example fetchEach_named_element_requests :
  let s := setRatingCache {[ "Title A" := VStr "8.4" ]} (initialState namedPage 10) in
  requests (fetchEach ratedRemote s [Some "Title B"]) = [Named [7]] ∧
  fetchRating ratedRemote (Some "Title A") (fetchEach ratedRemote s [Some "Title B"])
  = (Normal (VStr "8.4"), fetchEach ratedRemote s [Some "Title B"]).
Proof. split; reflexivity. Qed.

(** C3.  Once the cache holds a value for a title [t], every later
    [fetchRating(t)], whatever was fetched in between, resolves to that same
    value and leaves the state, the request log included, untouched; any
    number of calls for [t] in a row leave the state as it was.  (On a page
    without an element named [apiUrl] the calls in between, for whatever
    titles, issue no request either.) *)
Theorem fetchRating_cached_idempotent
    (remote : Remote) (t : string) (v : Value) (s : State)
    (between : list (option string)) :
  t ≠ "" -> ratingCache s !! t = Some v ->
  fetchRating remote (Some t) s = (Normal v, s) ∧
  fetchRating remote (Some t) (fetchEach remote s between)
  = (Normal v, fetchEach remote s between) ∧
  (namedElements "apiUrl" (document s) = [] ->
   requests (fetchEach remote s between) = requests s) ∧
  (forall n, fetchEach remote s (replicate n (Some t)) = s).
Proof.
  intros Ht Hc.
  split; [apply fetchRating_hit; assumption|].
  split; [|split; [apply fetchEach_quiet|]].
  - apply fetchRating_hit; [assumption|].
    apply fetchEach_keeps_entry; assumption.
  - intros n. induction n as [|n IH]; [reflexivity|].
    cbn [replicate]. unfold fetchEach in *. cbn [foldl].
    rewrite (fetchRating_hit remote t v s Ht Hc). exact IH.
Qed.

(** On a cache that holds "8.4" for "Title A". *)
Lemma fetchRating_cached_idempotent_witness :
  let s := setRatingCache {[ "Title A" := VStr "8.4" ]} (initialState samplePage 10) in
  "Title A" ≠ "" ∧ ratingCache s !! "Title A" = Some (VStr "8.4") ∧
  fetchRating ratedRemote (Some "Title A") s = (Normal (VStr "8.4"), s).
Proof.
  intros s. split; [discriminate|]. split; [reflexivity|].
  apply (fetchRating_cached_idempotent ratedRemote "Title A" (VStr "8.4") s
           [Some "Title B"; Some "Title A"]);
    [discriminate | reflexivity].
Defined.

(** C4, as the code stands.  The service would answer [{Response:"False"}], but
    [fetchRating("Title B")] resolves to [null] and not to "N/A", and stores no
    sentinel: a second call finds the cache as empty as the first did. *)
Theorem fetchRating_not_found_not_cached :
  let s := initialState samplePage 10 in
  let r := fetchRating notFoundRemote (Some "Title B") s in
  fst r = Normal VNull ∧
  ratingCache (snd r) !! "Title B" = None ∧
  fst (fetchRating notFoundRemote (Some "Title B") (snd r)) = Normal VNull ∧
  requests (snd (fetchRating notFoundRemote (Some "Title B") (snd r))) = [].
Proof.
  intros s r. subst r.
  rewrite (fetchRating_miss notFoundRemote "Title B" s);
    [| discriminate | reflexivity | reflexivity].
  simpl snd.
  rewrite fetchRating_miss; [| discriminate | reflexivity | reflexivity].
  repeat split.
Qed.

(** C5.  When the [try] block throws some error [e], be it the rejection of
    [fetch], the failure of [response.json()], a [TypeError] on a [null] body
    or the [ReferenceError], [fetchRating] resolves to [null], the cache is
    exactly as before with the title still absent, so that a later call goes
    past the cache check again, and [e] has been written to the console. *)
Theorem fetchRating_failure_leaves_cache
    (remote : Remote) (t : string) (s s1 : State) (e : Error) :
  t ≠ "" -> ratingCache s !! t = None ->
  lookupRemote remote (scope (Some t)) t s = (Throw e, s1) ->
  let r := fetchRating remote (Some t) s in
  fst r = Normal VNull ∧
  ratingCache (snd r) = ratingCache s ∧
  ratingCache (snd r) !! t = None ∧
  consoleErrors (snd r) = consoleErrors s ++ [e] ∧
  cacheHas t (snd r) = (Normal false, snd r).
Proof.
  intros Ht Hc Hthrow r. subst r.
  rewrite (fetchRating_lookup remote t s Ht Hc).
  pose proof (lookupRemote_outcome remote (scope (Some t)) t s) as Hout.
  rewrite Hthrow in Hout |- *. destruct Hout as (Hcache & _ & Hconsole & _).
  simpl. rewrite Hcache, Hconsole.
  repeat split; try exact Hc.
  apply cacheHas_false. simpl. rewrite Hcache. exact Hc.
Qed.

(** On the page with an element named [apiUrl], so that the request is made:
    with the network down, with a body that is not JSON, and with the body
    [null]. *)
Lemma fetchRating_failure_leaves_cache_witness :
  let s := initialState namedPage 10 in
  "Title A" ≠ "" ∧ ratingCache s !! "Title A" = None ∧
  lookupRemote failingRemote (scope (Some "Title A")) "Title A" s
  = (Throw NetworkError, setRequests [Named [7]] s) ∧
  (let r := fetchRating failingRemote (Some "Title A") s in
   fst r = Normal VNull ∧ ratingCache (snd r) = ratingCache s ∧
   consoleErrors (snd r) = [NetworkError]) ∧
  (let r := fetchRating garbledRemote (Some "Title A") s in
   fst r = Normal VNull ∧ ratingCache (snd r) = ratingCache s ∧
   consoleErrors (snd r) = [SyntaxError]) ∧
  (let r := fetchRating nullRemote (Some "Title A") s in
   fst r = Normal VNull ∧ ratingCache (snd r) = ratingCache s ∧
   consoleErrors (snd r) = [TypeError]).
Proof.
  intros s. split; [discriminate|]. split; [reflexivity|]. split; [reflexivity|].
  destruct (fetchRating_failure_leaves_cache failingRemote "Title A" s
              (setRequests [Named [7]] s) NetworkError) as (H1 & H2 & _ & H4 & _);
    [discriminate | reflexivity | reflexivity |].
  destruct (fetchRating_failure_leaves_cache garbledRemote "Title A" s
              (setRequests [Named [7]] s) SyntaxError) as (G1 & G2 & _ & G4 & _);
    [discriminate | reflexivity | reflexivity |].
  destruct (fetchRating_failure_leaves_cache nullRemote "Title A" s
              (setRequests [Named [7]] s) TypeError) as (N1 & N2 & _ & N4 & _);
    [discriminate | reflexivity | reflexivity |].
  repeat split; assumption.
Defined.

(** C6.  With an empty or absent title [fetchRating] resolves to [null] at once:
    the answer does not depend on the cache, and the state (cache and request
    log included) is untouched. *)
Theorem fetchRating_no_title (remote : Remote) (title : option string) (s : State) :
  title = None ∨ title = Some "" ->
  fetchRating remote title s = (Normal VNull, s).
Proof.
  intros [-> | ->]; reflexivity.
Qed.

(** For the empty title, even when the cache has an entry under it, and for [null]. *)
Lemma fetchRating_no_title_witness :
  fetchRating ratedRemote (Some "")
    (setRatingCache {[ "" := VStr "8.4" ]} (initialState samplePage 10))
  = (Normal VNull, setRatingCache {[ "" := VStr "8.4" ]} (initialState samplePage 10))
  ∧ fetchRating ratedRemote None (initialState samplePage 10)
    = (Normal VNull, initialState samplePage 10).
Proof.
  split.
  - apply (fetchRating_no_title ratedRemote (Some "")). right. reflexivity.
  - apply (fetchRating_no_title ratedRemote None). left. reflexivity.
Defined.

(** C10, refuted as stated.  Two paths return normally and write nothing: with
    an empty title the cache has no entry for the queried title afterwards, and
    on a cache hit the state is handed back as it was. *)
Lemma fetchRating_normal_path_without_write :
  (let r := fetchRating ratedRemote (Some "") (initialState samplePage 10) in
   fst r = Normal VNull ∧ ratingCache (snd r) !! "" = None) ∧
  (let s := setRatingCache {[ "Title A" := VStr "8.4" ]} (initialState samplePage 10) in
   fetchRating ratedRemote (Some "Title A") s = (Normal (VStr "8.4"), s)).
Proof.
  split.
  - split; reflexivity.
  - intros s. apply fetchRating_hit; [discriminate | reflexivity].
Qed.

(** C10, amended.  [fetchRating] writes the shared cache on the paths where the
    remote lookup completes, and only there: what the call then resolves to,
    the rating or the "N/A" sentinel, is the entry of the queried title
    afterwards.  With an empty or absent title, on a cache hit, and when the
    lookup throws, the cache is left exactly as it was; and on every path the
    entries of titles other than the queried one are left alone. *)
Theorem fetchRating_cache_writes (remote : Remote) (title : option string) (s : State) :
  (titlePresent title = false ∨ (exists t, title = Some t ∧ is_Some (ratingCache s !! t)) ->
   ratingCache (snd (fetchRating remote title s)) = ratingCache s) ∧
  (forall t v s1,
     title = Some t -> t ≠ "" -> ratingCache s !! t = None ->
     lookupRemote remote (scope title) t s = (Normal v, s1) ->
     fetchRating remote title s = (Normal v, s1) ∧
     ratingCache s1 = <[t := v]> (ratingCache s) ∧
     ratingCache (snd (fetchRating remote title s)) !! t = Some v) ∧
  (forall t e s1,
     title = Some t -> t ≠ "" -> ratingCache s !! t = None ->
     lookupRemote remote (scope title) t s = (Throw e, s1) ->
     ratingCache (snd (fetchRating remote title s)) = ratingCache s) ∧
  (forall k : string, title ≠ Some k ->
     ratingCache (snd (fetchRating remote title s)) !! k = ratingCache s !! k).
Proof.
  split; [|split; [|split]].
  - intros [Hp | (t & -> & [v Hc])].
    + rewrite (fetchRating_absent remote title s Hp). reflexivity.
    + destruct (decide (t = "")) as [-> | Ht]; [reflexivity|].
      rewrite (fetchRating_hit remote t v s Ht Hc). reflexivity.
  - intros t v s1 -> Ht Hc Hdone.
    rewrite (fetchRating_lookup remote t s Ht Hc).
    pose proof (lookupRemote_outcome remote (scope (Some t)) t s) as Hout.
    rewrite Hdone in Hout |- *. destruct Hout as (Hcache & _).
    split; [reflexivity|]. split; [exact Hcache|].
    simpl. rewrite Hcache. apply lookup_insert_eq.
  - intros t e s1 -> Ht Hc Hthrow.
    rewrite (fetchRating_lookup remote t s Ht Hc).
    pose proof (lookupRemote_outcome remote (scope (Some t)) t s) as Hout.
    rewrite Hthrow in Hout |- *. destruct Hout as (Hcache & _).
    simpl. exact Hcache.
  - intros k Hk. apply fetchRating_frame. exact Hk.
Qed.

(** On a cache hit for "Title A"; and, on the page with an element named
    [apiUrl], a lookup that completes with "8.4" and one that completes with
    the sentinel. *)
Lemma fetchRating_cache_writes_witness :
  (let s := setRatingCache {[ "Title A" := VStr "8.4" ]} (initialState samplePage 10) in
   ratingCache (snd (fetchRating ratedRemote (Some "Title A") s)) = ratingCache s) ∧
  (let s := initialState namedPage 10 in
   ratingCache (snd (fetchRating ratedRemote (Some "Title A") s)) !! "Title A"
   = Some (VStr "8.4") ∧
   ratingCache (snd (fetchRating notFoundRemote (Some "Title A") s)) !! "Title A"
   = Some (VStr "N/A") ∧
   ratingCache (snd (fetchRating ratedRemote (Some "Title A") s)) !! "Title B"
   = ratingCache s !! "Title B").
Proof.
  split.
  - intros s.
    destruct (fetchRating_cache_writes ratedRemote (Some "Title A") s) as [H1 _].
    apply H1. right. exists "Title A". split; [reflexivity|].
    exists (VStr "8.4"). reflexivity.
  - intros s.
    destruct (fetchRating_cache_writes ratedRemote (Some "Title A") s)
      as (_ & Hdone & _ & Hother).
    destruct (fetchRating_cache_writes notFoundRemote (Some "Title A") s)
      as (_ & Hdone' & _).
    split; [|split].
    + eapply Hdone; [reflexivity | discriminate | reflexivity | reflexivity].
    + eapply Hdone'; [reflexivity | discriminate | reflexivity | reflexivity].
    + apply Hother. discriminate.
Defined.

(** ** Badge renderer *)

Section SelectorFacts.

Context (sel : Selector).

Lemma firstMatch_nonempty (below : Element -> option Path) (l : list Element) (k : nat) :
  firstMatch sel below l k ≠ Some [].
Proof.
  revert k. induction l as [|c l IH]; intros k; simpl; [discriminate|].
  destruct (matches sel c); [discriminate|].
  destruct (below c); [discriminate|]. apply IH.
Qed.

Lemma querySelector_nonempty (e : Element) : querySelector sel e ≠ Some [].
Proof. destruct e. simpl. apply firstMatch_nonempty. Qed.

Lemma matches_setChildren (cs : list Element) (e : Element) :
  matches sel (setChildren cs e) = matches sel e.
Proof. destruct e, sel; reflexivity. Qed.

Lemma matches_removeAt (p : Path) (e : Element) :
  matches sel (removeAt p e) = matches sel e.
Proof.
  destruct p as [|i [|j p]]; simpl; [reflexivity | apply matches_setChildren |].
  destruct (children e !! i); [apply matches_setChildren | reflexivity].
Qed.

Lemma removeAt_below (k j : nat) (q : Path) (e : Element) :
  removeAt (k :: j :: q) e
  = match children e !! k with
    | Some y => setChildren (<[k := removeAt (j :: q) y]> (children e)) e
    | None => e
    end.
Proof. reflexivity. Qed.

Lemma insert_middle (pre post : list Element) (x y : Element) :
  <[length pre := y]> (pre ++ x :: post) = pre ++ y :: post.
Proof.
  rewrite insert_app_r_alt by lia. rewrite Nat.sub_diag. reflexivity.
Qed.

Lemma querySelectorAll_node i t c a s h (cs : list Element) :
  querySelectorAll sel (mkElement i t c a s h cs)
  = List.filter (matches sel) (flat_map (fun x => x :: descendants x) cs).
Proof. reflexivity. Qed.

Lemma firstMatch_first i t c a s h (cs pre : list Element) :
  Forall (FirstOfAll sel) cs ->
  List.filter (matches sel) (flat_map (fun x => x :: descendants x) pre) = [] ->
  match firstMatch sel (querySelector sel) cs (length pre) with
  | Some p =>
      exists b, elementAt p (mkElement i t c a s h (pre ++ cs)) = Some b ∧
                matches sel b = true ∧
                querySelectorAll sel (mkElement i t c a s h (pre ++ cs))
                = b :: querySelectorAll sel b
                    ++ querySelectorAll sel (removeAt p (mkElement i t c a s h (pre ++ cs)))
  | None => querySelectorAll sel (mkElement i t c a s h (pre ++ cs)) = []
  end.
Proof.
  revert pre. induction cs as [|x cs IH]; intros pre HF Hpre.
  - simpl. rewrite app_nil_r, querySelectorAll_node. exact Hpre.
  - inversion HF as [|? ? Hx Hcs]; subst. simpl firstMatch.
    destruct (matches sel x) eqn:Hm.
    + exists x. split; [|split; [exact Hm|]].
      * simpl. rewrite list_lookup_middle by reflexivity. reflexivity.
      * simpl removeAt. simpl children. rewrite delete_middle. simpl setChildren.
        rewrite !querySelectorAll_node, !flat_map_app, !List.filter_app, Hpre.
        simpl. rewrite Hm, List.filter_app. reflexivity.
    + destruct (querySelector sel x) as [q|] eqn:Hq.
      * unfold FirstOfAll in Hx. rewrite Hq in Hx. destruct Hx as (b & Hb & Hmb & Hall).
        exists b. split; [|split; [exact Hmb|]].
        -- simpl. rewrite list_lookup_middle by reflexivity. exact Hb.
        -- destruct q as [|j q]; [exfalso; exact (querySelector_nonempty x Hq)|].
           rewrite removeAt_below. cbn [children].
           rewrite list_lookup_middle by reflexivity.
           rewrite insert_middle. cbn [setChildren].
           remember (removeAt (j :: q) x) as x' eqn:Hx'.
           rewrite !querySelectorAll_node, !flat_map_app, !List.filter_app, Hpre.
           cbn [flat_map List.filter app].
           assert (matches sel x' = false) as Hm'.
           { rewrite Hx', matches_removeAt. exact Hm. }
           rewrite Hm, Hm', !List.filter_app.
           fold (querySelectorAll sel x). fold (querySelectorAll sel x').
           rewrite Hall. cbn [app]. rewrite <- app_assoc. reflexivity.
      * unfold FirstOfAll in Hx. rewrite Hq in Hx.
        specialize (IH (pre ++ [x]) Hcs).
        rewrite length_app, Nat.add_1_r, <- app_assoc in IH. simpl in IH.
        apply IH.
        rewrite flat_map_app, List.filter_app, Hpre. simpl. rewrite Hm.
        rewrite app_nil_r. exact Hx.
Qed.

Lemma querySelector_first (e : Element) : FirstOfAll sel e.
Proof.
  induction e as [i t c a s h cs IH] using Element_children_ind.
  unfold FirstOfAll. simpl querySelector.
  apply (firstMatch_first i t c a s h cs [] IH). reflexivity.
Qed.

End SelectorFacts.

Lemma querySelectorAll_setStyle (sel : Selector) (k v : string) (e : Element) :
  querySelectorAll sel (setStyle k v e) = querySelectorAll sel e.
Proof. destruct e. reflexivity. Qed.

Lemma querySelectorAll_appendChild (sel : Selector) (c e : Element) :
  querySelectorAll sel (appendChild c e)
  = querySelectorAll sel e ++ List.filter (matches sel) (c :: descendants c).
Proof.
  destruct e as [i t cl a s h cs]. unfold appendChild. cbn [children setChildren].
  rewrite !querySelectorAll_node, flat_map_app, List.filter_app.
  cbn [flat_map]. rewrite app_nil_r. reflexivity.
Qed.

Lemma removeRating_without_badge (targetElement : Element) :
  badges targetElement = [] -> removeRating targetElement = targetElement.
Proof.
  intros Hnone. unfold removeRating.
  pose proof (querySelector_first badgeSelector targetElement) as Hfirst.
  unfold FirstOfAll in Hfirst.
  destruct (querySelector badgeSelector targetElement) as [p|]; [|reflexivity].
  destruct Hfirst as (b & _ & _ & Hall).
  unfold badges in Hnone. rewrite Hnone in Hall. discriminate.
Qed.

Lemma removeRating_last_badge (targetElement : Element) :
  length (badges targetElement) ≤ 1 -> badges (removeRating targetElement) = [].
Proof.
  intros Hone. unfold removeRating.
  pose proof (querySelector_first badgeSelector targetElement) as Hfirst.
  unfold FirstOfAll in Hfirst.
  destruct (querySelector badgeSelector targetElement) as [p|]; [|exact Hfirst].
  destruct Hfirst as (b & _ & _ & Hall).
  unfold badges in *. rewrite Hall in Hone. simpl in Hone.
  rewrite length_app in Hone.
  destruct (querySelectorAll badgeSelector (removeAt p targetElement)); [reflexivity|].
  simpl in Hone. lia.
Qed.

Lemma removeRating_fewer (targetElement : Element) :
  length (badges (removeRating targetElement)) ≤ pred (length (badges targetElement)).
Proof.
  unfold removeRating.
  pose proof (querySelector_first badgeSelector targetElement) as Hfirst.
  unfold FirstOfAll in Hfirst.
  destruct (querySelector badgeSelector targetElement) as [p|].
  - destruct Hfirst as (b & _ & _ & Hall). unfold badges. rewrite Hall.
    simpl. rewrite length_app. lia.
  - unfold badges. rewrite Hfirst. simpl. lia.
Qed.

Section RendererFacts.

Context (parseHTML : Parser).

(** The badges below a target after [displayRating]: those left by the
    removal, then the new badge and whatever badges its own markup holds. *)
Lemma displayRating_badges_general (fresh : nat) (targetElement : Element) (rating : Value) :
  badges (displayRating parseHTML fresh targetElement rating)
  = if truthy rating
    then badges (removeRating targetElement)
           ++ createBadge parseHTML fresh rating :: badges (createBadge parseHTML fresh rating)
    else badges (removeRating targetElement).
Proof.
  unfold displayRating. destruct (truthy rating); cbn [negb]; [|reflexivity].
  unfold badges.
  rewrite querySelectorAll_appendChild, querySelectorAll_setStyle. reflexivity.
Qed.


End RendererFacts.




(** ** Hover controller *)

(** Work on the trees touches nothing else. *)
Lemma rendering_frame (removed : option Element) (ref : NodeRef)
    (f : Element -> Element) (s : State) :
  let s' := detach removed (updateNode ref f s) in
  timers s' = timers s ∧ debounceTimer s' = debounceTimer s ∧
  clock s' = clock s ∧ enterCalls s' = enterCalls s ∧
  ratingCache s' = ratingCache s ∧ requests s' = requests s ∧
  consoleErrors s' = consoleErrors s ∧ nextNodeId s' = nextNodeId s ∧
  nextTimerId s' = nextTimerId s.
Proof.
  unfold detach, updateNode, setTree.
  destruct removed, (trees s !! fst ref), (fst ref); simpl; repeat split.
Qed.

Lemma elementAt_updateAt (p : Path) (f : Element -> Element) (doc e : Element) :
  elementAt p doc = Some e -> elementAt p (updateAt p f doc) = Some (f e).
Proof.
  revert doc. induction p as [|i p IH]; intros doc; simpl.
  - intros [= ->]. reflexivity.
  - destruct (children doc !! i) as [c|] eqn:Hc; [|discriminate].
    intros He. destruct doc as [n t cl a s h cs]. simpl in *.
    rewrite list_lookup_insert_eq by (eapply lookup_lt_Some; exact Hc).
    apply IH. exact He.
Qed.

(** The node a reference points to after the work on it. *)
Lemma nodeAt_updateNode (removed : option Element) (ref : NodeRef)
    (f : Element -> Element) (s : State) (e : Element) :
  nodeAt ref (trees s) = Some e ->
  nodeAt ref (trees (detach removed (updateNode ref f s))) = Some (f e).
Proof.
  destruct ref as [k p]. unfold nodeAt, updateNode. cbn [fst snd].
  destruct (trees s !! k) as [tree|] eqn:Htree; [|discriminate].
  intros He. destruct k as [|j]; unfold trees in *; simpl in Htree.
  - injection Htree as <-.
    destruct removed; simpl; apply elementAt_updateAt; exact He.
  - assert (j < length (detached s)) as Hj by (eapply lookup_lt_Some; exact Htree).
    destruct removed; simpl.
    + rewrite lookup_app_l by (rewrite length_insert; exact Hj).
      rewrite list_lookup_insert_eq by exact Hj. apply elementAt_updateAt. exact He.
    + rewrite list_lookup_insert_eq by exact Hj. apply elementAt_updateAt. exact He.
Qed.

Section ControllerFacts.

Context (remote : Remote) (parseHTML : Parser).

Lemma displayRatingAt_frame (card : NodeRef) (rating : Value) (s : State) :
  let s' := snd (displayRatingAt parseHTML card rating s) in
  timers s' = timers s ∧ debounceTimer s' = debounceTimer s ∧
  clock s' = clock s ∧ enterCalls s' = enterCalls s ∧
  ratingCache s' = ratingCache s ∧ requests s' = requests s ∧
  consoleErrors s' = consoleErrors s ∧ nextTimerId s' = nextTimerId s.
Proof.
  unfold displayRatingAt. cbn [snd].
  match goal with |- context [detach ?r (updateNode ?ref ?f s)] =>
    destruct (rendering_frame r ref f s) as (Ht & Hd & Hc & He & Hk & Hr & Hl & _ & Hn)
  end.
  destruct (truthy rating); simpl; repeat split; assumption.
Qed.

(** The enter-handler touches neither the timer queue nor the clock. *)
Lemma handleMouseOver_frame (event : MouseEvent) (s : State) :
  let s' := snd (handleMouseOver remote parseHTML event s) in
  timers s' = timers s ∧ debounceTimer s' = debounceTimer s ∧
  clock s' = clock s ∧ enterCalls s' = enterCalls s.
Proof.
  unfold handleMouseOver, mbind, M_bind, getTrees.
  destruct (closestTo (ClassSel "slider-item") event (trees s)) as [movieCard|];
    [|simpl; repeat split].
  match goal with |- context [titlePresent ?x] => set (title := x) end.
  destruct (titlePresent title); [|simpl; repeat split].
  pose proof (fetchRating_frame remote title s) as [Hframe _].
  destruct (fetchRating remote title s) as [[rating|e] s1]; simpl in Hframe;
    destruct Hframe as (Hd & Ht & Hc & _ & _ & _ & _ & He);
    [|simpl; repeat split; assumption].
  destruct (truthy rating); [|simpl; repeat split; assumption].
  destruct (displayRatingAt_frame movieCard rating s1) as (Ht' & Hd' & Hc' & He' & _).
  repeat split; congruence.
Qed.

Lemma filter_other_timers_single (t : Timer) :
  filter (fun t' => timerId t' ≠ timerId t) [t] = [].
Proof.
  rewrite filter_cons. destruct (decide (timerId t ≠ timerId t)) as [Hne|_];
    [exfalso; apply Hne; reflexivity | reflexivity].
Qed.

Lemma clearTimeout_pending (s : State) :
  TimerInvariant s ->
  snd (clearTimeout (debounceTimer s) s) = setTimers [] s.
Proof.
  intros [Hnone | (t & Hone & Hd)]; unfold clearTimeout.
  - destruct (debounceTimer s); simpl; rewrite ?Hnone; try reflexivity.
    destruct s. simpl in *. subst. reflexivity.
  - rewrite Hd. simpl. rewrite Hone, filter_other_timers_single. reflexivity.
Qed.

Lemma clearTimeout_normal (id : option nat) (s : State) :
  fst (clearTimeout id s) = Normal tt.
Proof. destruct id; reflexivity. Qed.

(** A pointer-enter replaces whatever was scheduled by one new timer. *)
Lemma debounce_replaces (func : Func) (delay : nat) (event : MouseEvent) (s : State) :
  TimerInvariant s ->
  let s' := snd (debounce func delay event s) in
  timers s' = [mkTimer (nextTimerId s) (clock s + delay) func event] ∧
  debounceTimer s' = Some (nextTimerId s) ∧
  clock s' = clock s ∧ enterCalls s' = enterCalls s.
Proof.
  intros Hinv. unfold debounce, mbind, M_bind, getDebounceTimer.
  pose proof (clearTimeout_pending s Hinv) as Hclear.
  pose proof (clearTimeout_normal (debounceTimer s) s) as Hnormal.
  destruct (clearTimeout (debounceTimer s) s) as [[[]|e] s1]; simpl in Hclear, Hnormal;
    [|discriminate].
  subst s1. simpl. repeat split.
Qed.

(** A pointer-leave with a card around its target clears the queue and then
    calls [removeRating] on the card. *)
Lemma handleMouseOut_effect (event : MouseEvent) (s : State) :
  TimerInvariant s ->
  snd (handleMouseOut event s)
  = match closestTo (ClassSel "slider-item") event (trees s) with
    | Some movieCard => snd (removeRatingAt movieCard (setTimers [] s))
    | None => s
    end.
Proof.
  intros Hinv. unfold handleMouseOut, mbind, M_bind, getTrees, getDebounceTimer.
  destruct (closestTo (ClassSel "slider-item") event (trees s)) as [movieCard|];
    [|reflexivity].
  pose proof (clearTimeout_pending s Hinv) as Hclear.
  pose proof (clearTimeout_normal (debounceTimer s) s) as Hnormal.
  destruct (clearTimeout (debounceTimer s) s) as [[[]|e] s1]; simpl in Hclear, Hnormal;
    [|discriminate].
  subst s1. reflexivity.
Qed.

(** Waiting, in the three situations the invariant allows. *)
Lemma advance_idle (dt : nat) (s : State) :
  timers s = [] -> advance remote parseHTML dt s = setClock (clock s + dt) s.
Proof. intros Hnone. unfold advance. rewrite Hnone. reflexivity. Qed.

Lemma advance_early (dt : nat) (s : State) (t : Timer) :
  timers s = [t] -> clock s + dt < due t ->
  advance remote parseHTML dt s = setClock (clock s + dt) s.
Proof.
  intros Hone Hearly. unfold advance. rewrite Hone, filter_cons.
  destruct (decide (due t ≤ clock s + dt)); [lia | reflexivity].
Qed.

Lemma advance_fires (dt : nat) (s : State) (t : Timer) :
  timers s = [t] -> due t ≤ clock s + dt ->
  let s' := advance remote parseHTML dt s in
  timers s' = [] ∧ debounceTimer s' = debounceTimer s ∧
  clock s' = clock s + dt ∧
  enterCalls s' = enterCalls s ++ [(due t, callbackArgs t)].
Proof.
  intros Hone Hdue. unfold advance. rewrite Hone, filter_cons.
  destruct (decide (due t ≤ clock s + dt)); [|lia].
  simpl. unfold fireTimer. rewrite Hone. simpl. rewrite Nat.eqb_refl. simpl.
  rewrite filter_other_timers_single. unfold timerCallback.
  destruct (callbackFunc t). cbn [apply].
  match goal with |- context [handleMouseOver remote parseHTML ?ev ?s0] =>
    pose proof (handleMouseOver_frame ev s0) as Hframe;
    destruct (handleMouseOver remote parseHTML ev s0) as [r s1]
  end.
  simpl in *. destruct Hframe as (Ht & Hd & _ & He).
  repeat split; assumption.
Qed.

Lemma advance_invariant (dt : nat) (s : State) :
  TimerInvariant s -> TimerInvariant (advance remote parseHTML dt s).
Proof.
  intros [Hnone | (t & Hone & Hd)].
  - rewrite (advance_idle dt s Hnone). left. exact Hnone.
  - destruct (decide (due t ≤ clock s + dt)) as [Hdue | Hearly].
    + left. apply (advance_fires dt s t Hone Hdue).
    + rewrite (advance_early dt s t Hone) by lia. right. exists t. split; assumption.
Qed.

Lemma listener_invariant (i : Input) (s : State) :
  TimerInvariant s -> TimerInvariant (snd (listener i s)).
Proof.
  intros Hinv. destruct i as [event | event]; simpl.
  - destruct (debounce_replaces HandleMouseOver quietPeriod event s Hinv) as (Ht & Hd & _).
    right. eexists. split; [exact Ht | exact Hd].
  - rewrite (handleMouseOut_effect event s Hinv).
    destruct (closestTo (ClassSel "slider-item") event (trees s)); [|exact Hinv].
    left. unfold removeRatingAt. cbn [snd].
    match goal with |- context [detach ?r (updateNode ?ref ?f ?s0)] =>
      destruct (rendering_frame r ref f s0) as (Ht & _)
    end.
    rewrite Ht. reflexivity.
Qed.

Lemma step_invariant (s : State) (x : nat * Input) :
  TimerInvariant s -> TimerInvariant (step remote parseHTML s x).
Proof. intros Hinv. apply listener_invariant, advance_invariant, Hinv. Qed.

Lemma run_invariant (trace : list (nat * Input)) (s : State) :
  TimerInvariant s -> TimerInvariant (run remote parseHTML s trace).
Proof.
  revert s. induction trace as [|x trace IH]; intros s Hinv; [exact Hinv|].
  simpl. apply IH, step_invariant, Hinv.
Qed.

Lemma initialState_invariant (doc : Element) (fresh : nat) :
  TimerInvariant (initialState doc fresh).
Proof. left. reflexivity. Qed.

Lemma invariant_at_most_one (s : State) : TimerInvariant s -> length (timers s) ≤ 1.
Proof. intros [-> | (t & -> & _)]; simpl; lia. Qed.

End ControllerFacts.

Lemma last_default_irrelevant {A : Type} (l : list A) (a d d' : A) :
  List.last (a :: l) d = List.last (a :: l) d'.
Proof.
  revert a. induction l as [|b l IH]; intros a; [reflexivity|].
  change (List.last (b :: l) d = List.last (b :: l) d'). apply IH.
Qed.

Lemma last_cons_default {A : Type} (l : list A) (a d : A) :
  List.last (a :: l) d = List.last l a.
Proof.
  destruct l as [|b l]; [reflexivity|].
  change (List.last (b :: l) d = List.last (b :: l) a).
  apply last_default_irrelevant.
Qed.

Section DebounceFacts.

Context (remote : Remote) (parseHTML : Parser).

(** While pointer-enter events keep coming less than the quiet period apart,
    the one timer is re-armed for the latest of them and nothing fires. *)
Lemma burst_rearms (burst : list (nat * MouseEvent)) (s : State) (id : nat)
    (event : MouseEvent) :
  Forall (fun x => fst x < quietPeriod) burst ->
  timers s = [mkTimer id (clock s + quietPeriod) HandleMouseOver event] ->
  debounceTimer s = Some id ->
  let s' := run remote parseHTML s (mouseOvers burst) in
  (exists id', timers s' = [mkTimer id' (clock s' + quietPeriod) HandleMouseOver
                                    (List.last (map snd burst) event)]
               ∧ debounceTimer s' = Some id') ∧
  enterCalls s' = enterCalls s.
Proof.
  revert s id event. induction burst as [|[d e] burst IH]; intros s id event HF Ht Hd.
  - simpl. split; [exists id; split; assumption | reflexivity].
  - inversion HF as [|? ? Hquick HF']; subst. simpl in Hquick.
    change (run remote parseHTML s (mouseOvers ((d, e) :: burst)))
      with (run remote parseHTML (step remote parseHTML s (d, MouseOver e))
                (mouseOvers burst)).
    assert (advance remote parseHTML d s = setClock (clock s + d) s) as Hadv.
    { apply (advance_early remote parseHTML d s _ Ht). simpl. lia. }
    assert (TimerInvariant (setClock (clock s + d) s)) as Hinv.
    { right. eexists. split; [exact Ht | exact Hd]. }
    pose proof (debounce_replaces HandleMouseOver quietPeriod e _ Hinv) as Hnew.
    unfold step. cbn [fst snd listener]. rewrite Hadv.
    set (s1 := snd (debounce HandleMouseOver quietPeriod e (setClock (clock s + d) s))) in *.
    simpl in Hnew. destruct Hnew as (Ht1 & Hd1 & Hk1 & He1).
    destruct (IH s1 (nextTimerId s) e HF') as (Harmed & Hcalls).
    + rewrite Ht1, Hk1. reflexivity.
    + exact Hd1.
    + split.
      * cbn [map snd]. rewrite last_cons_default. exact Harmed.
      * rewrite Hcalls. exact He1.
Qed.

End DebounceFacts.

(** C7.  In every state the script reaches, before or after any wait, at most
    one invocation of the enter-handler is scheduled.  A pointer-enter replaces
    what was scheduled by one timer of its own; so after a run of pointer-enter
    events that follow one another by less than the quiet period of 300, the
    one timer pending is that of the last event, no invocation has happened
    since the run began, and waiting brings exactly one, made 300 after the
    last event with that event as its argument, once the wait reaches 300. *)
Theorem debounce_collapse
    (remote : Remote) (parseHTML : Parser) (doc : Element) (fresh : nat)
    (trace : list (nat * Input))
    (d1 : nat) (e1 : MouseEvent) (burst : list (nat * MouseEvent)) (wait : nat) :
  Forall (fun x => fst x < quietPeriod) burst ->
  let before := run remote parseHTML (initialState doc fresh) trace in
  let s := run remote parseHTML before ((d1, MouseOver e1) :: mouseOvers burst) in
  let lastEvent := List.last (map snd burst) e1 in
  length (timers before) ≤ 1 ∧
  length (timers (advance remote parseHTML wait before)) ≤ 1 ∧
  (exists id, timers s = [mkTimer id (clock s + quietPeriod) HandleMouseOver lastEvent]
              ∧ debounceTimer s = Some id) ∧
  enterCalls s = enterCalls (advance remote parseHTML d1 before) ∧
  enterCalls (advance remote parseHTML wait s)
  = enterCalls s ++ (if decide (quietPeriod ≤ wait)
                     then [(clock s + quietPeriod, lastEvent)] else []).
Proof.
  intros HF before s lastEvent.
  assert (TimerInvariant before) as Hbefore.
  { apply run_invariant, initialState_invariant. }
  split; [apply invariant_at_most_one, Hbefore|].
  split; [apply invariant_at_most_one, advance_invariant, Hbefore|].
  pose proof (advance_invariant remote parseHTML d1 before Hbefore) as Hadv.
  pose proof (debounce_replaces HandleMouseOver quietPeriod e1 _ Hadv) as Hfirst.
  simpl in Hfirst. destruct Hfirst as (Ht & Hd & Hk & He).
  destruct (burst_rearms remote parseHTML burst
              (step remote parseHTML before (d1, MouseOver e1))
              (nextTimerId (advance remote parseHTML d1 before)) e1 HF)
    as ((id & Htimer & Hdeb) & Hcalls).
  { unfold step. cbn [fst snd listener]. rewrite Ht, Hk. reflexivity. }
  { unfold step. cbn [fst snd listener]. exact Hd. }
  change (run remote parseHTML (step remote parseHTML before (d1, MouseOver e1))
              (mouseOvers burst))
    with s in Htimer, Hdeb, Hcalls.
  fold lastEvent in Htimer.
  split; [exists id; split; assumption|].
  split.
  { rewrite Hcalls. unfold step. cbn [fst snd listener]. exact He. }
  destruct (decide (quietPeriod ≤ wait)) as [Hlong | Hshort].
  - destruct (advance_fires remote parseHTML wait s _ Htimer) as (_ & _ & _ & Hfire).
    + simpl. lia.
    + exact Hfire.
  - rewrite (advance_early remote parseHTML wait s _ Htimer) by (simpl; lia).
    simpl. rewrite app_nil_r. reflexivity.
Qed.

(** Three pointer-enter events at times 5, 105 and 404: one call, at 704, for the third. *)
Lemma debounce_collapse_witness :
  Forall (fun x => fst x < quietPeriod) [(100, mkMouseEvent 1); (299, mkMouseEvent 2)] ∧
  enterCalls
    (advance ratedRemote sampleParser 300
       (run ratedRemote sampleParser (initialState samplePage 10)
            ((5, MouseOver (mkMouseEvent 2))
               :: mouseOvers [(100, mkMouseEvent 1); (299, mkMouseEvent 2)])))
  = [(704, mkMouseEvent 2)].
Proof.
  assert (Forall (fun x => fst x < quietPeriod)
                 [(100, mkMouseEvent 1); (299, mkMouseEvent 2)]) as HF.
  { repeat constructor; unfold quietPeriod; simpl; lia. }
  split; [exact HF|].
  destruct (debounce_collapse ratedRemote sampleParser samplePage 10 [] 5 (mkMouseEvent 2)
              [(100, mkMouseEvent 1); (299, mkMouseEvent 2)] 300 HF)
    as (_ & _ & _ & _ & Hfire).
  refine (eq_trans Hfire _). reflexivity.
Defined.

(** What [closest] hands back is a node that exists and matches. *)
Lemma closestTo_found (sel : Selector) (event : MouseEvent) (ts : list Element)
    (ref : NodeRef) :
  closestTo sel event ts = Some ref ->
  exists e, nodeAt ref ts = Some e ∧ matches sel e = true.
Proof.
  unfold closestTo.
  destruct (findInTrees (target event) ts 0) as [[k p]|]; [|discriminate].
  destruct (ts !! k) as [tree|] eqn:Hk; [|discriminate].
  destruct (closest sel p tree) as [q|] eqn:Hq; [|discriminate].
  intros [= <-]. unfold closest in Hq.
  apply List.find_some in Hq. destruct Hq as [_ Hm].
  destruct (elementAt q tree) as [e|] eqn:He; [|discriminate].
  exists e. unfold nodeAt. cbn [fst snd]. rewrite Hk. split; assumption.
Qed.

(** C8, refuted as stated.  On the page with a card inside a card, after the
    enter-handler has put a badge on the outer card and then one on the inner
    card, a pointer-leave from the outer card's link removes the badge
    [querySelector] finds first below the outer card, which is the inner
    card's: the outer card's own badge is still on it afterwards. *)
Lemma leave_keeps_outer_badge :
  let s := advance ratedRemote sampleParser 300
             (run ratedRemote sampleParser (initialState nestedPage 10)
                  [(0, MouseOver (mkMouseEvent 2)); (300, MouseOver (mkMouseEvent 4))]) in
  let s' := snd (handleMouseOut (mkMouseEvent 2) s) in
  closestTo (ClassSel "slider-item") (mkMouseEvent 2) (trees s) = Some (0, [0]) ∧
  option_map badges (nodeAt (0, [0]) (trees s))
  = Some [createBadge sampleParser 11 (VStr "8.4"); createBadge sampleParser 10 (VStr "8.4")] ∧
  option_map badges (nodeAt (0, [0]) (trees s'))
  = Some [createBadge sampleParser 10 (VStr "8.4")] ∧
  option_map (fun card => List.filter (matches badgeSelector) (children card))
             (nodeAt (0, [0]) (trees s'))
  = Some [createBadge sampleParser 10 (VStr "8.4")].
Proof. repeat split. Qed.

(** C8, amended.  A pointer-leave that arrives in any state the script reaches,
    with a card around its target, leaves nothing scheduled, so that no wait
    afterwards brings an invocation of the enter-handler, and in the same step
    applies [removeRating] to that card, an element of class [slider-item]:
    the first badge [querySelector] finds below the card is gone, and the card
    carries none if it carried at most one.  With no card around the target
    the handler changes nothing at all. *)
Theorem leave_cancels_pending
    (remote : Remote) (parseHTML : Parser) (doc : Element) (fresh : nat)
    (trace : list (nat * Input)) (dt : nat) (event : MouseEvent) :
  let s := advance remote parseHTML dt
             (run remote parseHTML (initialState doc fresh) trace) in
  let s' := snd (handleMouseOut event s) in
  match closestTo (ClassSel "slider-item") event (trees s) with
  | Some movieCard =>
      timers s' = [] ∧
      (forall later, enterCalls (advance remote parseHTML later s') = enterCalls s') ∧
      (exists card, nodeAt movieCard (trees s) = Some card ∧
                    matches (ClassSel "slider-item") card = true) ∧
      (forall card, nodeAt movieCard (trees s) = Some card ->
         nodeAt movieCard (trees s') = Some (removeRating card) ∧
         length (badges (removeRating card)) ≤ pred (length (badges card)) ∧
         (length (badges card) ≤ 1 -> badges (removeRating card) = []))
  | None => s' = s
  end.
Proof.
  intros s s'.
  assert (TimerInvariant s) as Hinv.
  { apply advance_invariant, run_invariant, initialState_invariant. }
  pose proof (handleMouseOut_effect event s Hinv) as Hout. fold s' in Hout.
  pose proof (closestTo_found (ClassSel "slider-item") event (trees s)) as Hfound.
  destruct (closestTo (ClassSel "slider-item") event (trees s)) as [movieCard|];
    [|exact Hout].
  unfold removeRatingAt in Hout. cbn [snd] in Hout.
  assert (timers s' = []) as Ht.
  { rewrite Hout.
    match goal with |- context [detach ?r (updateNode ?ref ?f ?s0)] =>
      destruct (rendering_frame r ref f s0) as (Ht & _)
    end.
    rewrite Ht. reflexivity. }
  split; [exact Ht|].
  split; [intros later; rewrite (advance_idle remote parseHTML later s' Ht); reflexivity|].
  split; [exact (Hfound movieCard eq_refl)|].
  intros card Hcard. split; [|split].
  - rewrite Hout. apply nodeAt_updateNode. exact Hcard.
  - apply removeRating_fewer.
  - apply removeRating_last_badge.
Qed.

(** A pointer-leave 100 after a pointer-enter, on a card that carries a badge. *)
Lemma leave_cancels_pending_witness :
  let s := advance ratedRemote sampleParser 100
             (run ratedRemote sampleParser (initialState badgedPage 10)
                  [(5, MouseOver (mkMouseEvent 2))]) in
  let s' := snd (handleMouseOut (mkMouseEvent 2) s) in
  length (timers s) = 1 ∧
  nodeAt (0, [0]) (trees s)
  = Some (sampleCard [sampleLink; createBadge sampleParser 4 (VStr "8.4")]) ∧
  length (badges (sampleCard [sampleLink; createBadge sampleParser 4 (VStr "8.4")])) ≤ 1 ∧
  timers s' = [] ∧
  nodeAt (0, [0]) (trees s')
  = Some (removeRating (sampleCard [sampleLink; createBadge sampleParser 4 (VStr "8.4")])) ∧
  badges (removeRating (sampleCard [sampleLink; createBadge sampleParser 4 (VStr "8.4")]))
  = [].
Proof.
  intros s s'.
  pose proof (leave_cancels_pending ratedRemote sampleParser badgedPage 10
                [(5, MouseOver (mkMouseEvent 2))] 100 (mkMouseEvent 2)) as Hleave.
  cbv zeta in Hleave. fold s in Hleave.
  assert (closestTo (ClassSel "slider-item") (mkMouseEvent 2) (trees s) = Some (0, [0]))
    as Hcard by reflexivity.
  rewrite Hcard in Hleave. fold s' in Hleave.
  destruct Hleave as (Htimers & _ & _ & Hbadge).
  assert (nodeAt (0, [0]) (trees s)
          = Some (sampleCard [sampleLink; createBadge sampleParser 4 (VStr "8.4")])) as Hat
    by reflexivity.
  assert (length (badges (sampleCard [sampleLink; createBadge sampleParser 4 (VStr "8.4")]))
          ≤ 1) as Hone by (simpl; lia).
  destruct (Hbadge _ Hat) as (Hafter & _ & Hnone).
  split; [reflexivity|]. split; [exact Hat|]. split; [exact Hone|].
  split; [exact Htimers|]. split; [exact Hafter|]. exact (Hnone Hone).
Defined.

(** * Further properties *)

(** ** The style table and the shell of an element *)







(** ** Display, then remove *)

Lemma firstMatch_app (sel : Selector) (below : Element -> option Path)
    (l l' : list Element) (k : nat) :
  firstMatch sel below (l ++ l') k
  = match firstMatch sel below l k with
    | Some p => Some p
    | None => firstMatch sel below l' (k + length l)
    end.
Proof.
  revert k. induction l as [|c l IH]; intros k; simpl.
  - rewrite Nat.add_0_r. reflexivity.
  - destruct (matches sel c); [reflexivity|].
    destruct (below c); [reflexivity|].
    rewrite IH. rewrite Nat.add_succ_comm. reflexivity.
Qed.




(** X3.  On a target with at most one badge below it, a second [removeRating]
    changes nothing more. *)
Theorem removeRating_idempotent (targetElement : Element) :
  length (badges targetElement) ≤ 1 ->
  removeRating (removeRating targetElement) = removeRating targetElement.
Proof.
  intros Hone. apply removeRating_without_badge, removeRating_last_badge, Hone.
Qed.

(** On the card of the badged page. *)
Lemma removeRating_idempotent_witness :
  length (badges (sampleCard [sampleLink; createBadge sampleParser 4 (VStr "8.4")])) ≤ 1 ∧
  removeRating (removeRating
                  (sampleCard [sampleLink; createBadge sampleParser 4 (VStr "8.4")]))
  = sampleCard [sampleLink].
Proof.
  assert (length (badges (sampleCard [sampleLink; createBadge sampleParser 4 (VStr "8.4")]))
          ≤ 1) as Hone by (simpl; lia).
  split; [exact Hone|].
  refine (eq_trans (removeRating_idempotent _ Hone) _). reflexivity.
Defined.

(** X4.  For a rating whose text brings no element with an [aria-label]
    attribute, attaching a badge to a target without one does not change what
    [querySelector("[aria-label]")] finds below the target: the same position,
    and the same element at it.  The enter-handler therefore reads the same
    title from a card before and after it has put a badge on it. *)
Theorem displayRating_keeps_title_element
    (parseHTML : Parser) (fresh : nat) (targetElement : Element) (rating : Value) :
  badges targetElement = [] ->
  querySelector (AttrSel "aria-label") (createBadge parseHTML fresh rating) = None ->
  querySelector (AttrSel "aria-label") (displayRating parseHTML fresh targetElement rating)
  = querySelector (AttrSel "aria-label") targetElement ∧
  forall p, querySelector (AttrSel "aria-label") targetElement = Some p ->
    elementAt p (displayRating parseHTML fresh targetElement rating)
    = elementAt p targetElement.
Proof.
  intros Hnone Hplain. unfold displayRating.
  rewrite (removeRating_without_badge targetElement Hnone).
  destruct (truthy rating); cbn [negb]; [|split; reflexivity].
  destruct targetElement as [i t c a s h cs].
  unfold appendChild. cbn [setStyle children setChildren querySelector].
  rewrite firstMatch_app.
  destruct (firstMatch (AttrSel "aria-label") (querySelector (AttrSel "aria-label")) cs 0)
    as [q|] eqn:Hq.
  - split; [reflexivity|]. intros p [= <-].
    pose proof (querySelector_first (AttrSel "aria-label") (mkElement i t c a s h cs))
      as Hfirst.
    unfold FirstOfAll in Hfirst. cbn [querySelector] in Hfirst. rewrite Hq in Hfirst.
    destruct Hfirst as (b & Hb & _).
    destruct q as [|k q]; [exfalso; exact (firstMatch_nonempty _ _ _ _ Hq)|].
    simpl in Hb |- *.
    destruct (cs !! k) as [x|] eqn:Hk; [|discriminate].
    rewrite lookup_app_l by (eapply lookup_lt_Some; exact Hk).
    rewrite Hk. reflexivity.
  - split; [|discriminate].
    cbn [firstMatch]. rewrite Hplain. reflexivity.
Qed.

(** On the sample card, whose link carries the title. *)
Lemma displayRating_keeps_title_element_witness :
  badges (sampleCard [sampleLink]) = [] ∧
  querySelector (AttrSel "aria-label") (createBadge sampleParser 10 (VStr "8.4")) = None ∧
  querySelector (AttrSel "aria-label")
                (displayRating sampleParser 10 (sampleCard [sampleLink]) (VStr "8.4"))
  = Some [0] ∧
  elementAt [0] (displayRating sampleParser 10 (sampleCard [sampleLink]) (VStr "8.4"))
  = Some sampleLink.
Proof.
  split; [reflexivity|]. split; [reflexivity|].
  destruct (displayRating_keeps_title_element sampleParser 10 (sampleCard [sampleLink])
              (VStr "8.4")) as [Hsame Hat]; [reflexivity | reflexivity |].
  split.
  - refine (eq_trans Hsame _). reflexivity.
  - refine (eq_trans (Hat [0] _) _); reflexivity.
Defined.

(** ** The enter-handler *)

Section EnterHandlerFacts.

Context (remote : Remote) (parseHTML : Parser).

(** X6.  The enter-handler does nothing at all, reads no cache and logs
    nothing, when its target, wherever that node now is, has no card around
    it, when the card has no descendant with an [aria-label] attribute, and
    when that attribute is empty. *)
Theorem handleMouseOver_without_title (event : MouseEvent) (s : State) :
  (exists tgt, findInTrees (target event) (trees s) 0 = Some tgt ∧
               closestTo (ClassSel "slider-item") event (trees s) = None) ∨
  (exists movieCard card,
      closestTo (ClassSel "slider-item") event (trees s) = Some movieCard ∧
      nodeAt movieCard (trees s) = Some card ∧
      (querySelector (AttrSel "aria-label") card = None ∨
       exists te el, querySelector (AttrSel "aria-label") card = Some te ∧
                     elementAt te card = Some el ∧
                     getAttribute "aria-label" el = Some "")) ->
  handleMouseOver remote parseHTML event s = (Normal tt, s).
Proof.
  unfold handleMouseOver, mbind, M_bind, getTrees.
  intros [(tgt & _ & ->)
         | (movieCard & card & -> & -> & [-> | (te & el & -> & -> & ->)])];
    reflexivity.
Qed.

(** What the handler does once it has a title in hand. *)
Lemma handleMouseOver_with_title
    (event : MouseEvent) (s : State) (movieCard : NodeRef) (te : Path)
    (card el : Element) (t : string) :
  closestTo (ClassSel "slider-item") event (trees s) = Some movieCard ->
  nodeAt movieCard (trees s) = Some card ->
  querySelector (AttrSel "aria-label") card = Some te ->
  elementAt te card = Some el ->
  getAttribute "aria-label" el = Some t ->
  t ≠ "" ->
  handleMouseOver remote parseHTML event s
  = match fetchRating remote (Some t) s with
    | (Normal rating, s') =>
        if truthy rating then displayRatingAt parseHTML movieCard rating s'
        else (Normal tt, s')
    | (Throw e, s') => (Throw e, s')
    end.
Proof.
  intros Hc Hcard Hq Hel Hattr Ht.
  unfold handleMouseOver, mbind, M_bind, getTrees.
  rewrite Hc, Hcard, Hq, Hel, Hattr.
  unfold titlePresent. rewrite (nonempty_eqb t Ht). cbn [negb].
  destruct (fetchRating remote (Some t) s) as [[rating|e] s']; [|reflexivity].
  destruct (truthy rating); reflexivity.
Qed.

End EnterHandlerFacts.

(** For an event on the root of the sample page, which no card encloses. *)
Lemma handleMouseOver_without_title_witness :
  findInTrees 0 (trees (initialState samplePage 10)) 0 = Some (0, []) ∧
  closestTo (ClassSel "slider-item") (mkMouseEvent 0) (trees (initialState samplePage 10))
  = None ∧
  handleMouseOver ratedRemote sampleParser (mkMouseEvent 0) (initialState samplePage 10)
  = (Normal tt, initialState samplePage 10).
Proof.
  split; [reflexivity|]. split; [reflexivity|].
  apply (handleMouseOver_without_title ratedRemote sampleParser (mkMouseEvent 0)
           (initialState samplePage 10)).
  left. exists (0, []). split; reflexivity.
Defined.



(** X8.  On a page without an element named [apiUrl], when the title of the
    hovered card is not in the cache, the enter-handler ends with the
    document, the cache and the request log as they were: the only trace of the
    call is the [ReferenceError] that [fetchRating] has written to the
    console. *)
Theorem handleMouseOver_uncached_title
    (remote : Remote) (parseHTML : Parser) (event : MouseEvent) (s : State)
    (movieCard : NodeRef) (te : Path) (card el : Element) (t : string) :
  namedElements "apiUrl" (document s) = [] ->
  closestTo (ClassSel "slider-item") event (trees s) = Some movieCard ->
  nodeAt movieCard (trees s) = Some card ->
  querySelector (AttrSel "aria-label") card = Some te ->
  elementAt te card = Some el ->
  getAttribute "aria-label" el = Some t ->
  t ≠ "" ->
  ratingCache s !! t = None ->
  handleMouseOver remote parseHTML event s
  = (Normal tt, setConsoleErrors (consoleErrors s ++ [ReferenceError "apiUrl"]) s).
Proof.
  intros Hnone Hc Hcard Hq Hel Hattr Ht Hcache.
  rewrite (handleMouseOver_with_title remote parseHTML event s movieCard te card el t
             Hc Hcard Hq Hel Hattr Ht).
  rewrite (fetchRating_miss remote t s Ht Hcache Hnone). reflexivity.
Qed.

(** On the sample page with an empty cache, hovering the link. *)
Lemma handleMouseOver_uncached_title_witness :
  namedElements "apiUrl" (document (initialState samplePage 10)) = [] ∧
  ratingCache (initialState samplePage 10) !! "Title A" = None ∧
  handleMouseOver ratedRemote sampleParser (mkMouseEvent 2) (initialState samplePage 10)
  = (Normal tt, setConsoleErrors [ReferenceError "apiUrl"] (initialState samplePage 10)).
Proof.
  split; [reflexivity|]. split; [reflexivity|].
  apply (handleMouseOver_uncached_title ratedRemote sampleParser (mkMouseEvent 2)
           (initialState samplePage 10) (0, [0]) [0] (sampleCard [sampleLink]) sampleLink
           "Title A");
    first [reflexivity | discriminate].
Defined.

(** ** The script as a whole *)

Lemma setConsoleErrors_same (s : State) : setConsoleErrors (consoleErrors s) s = s.
Proof. destruct s. reflexivity. Qed.

(** Named access looks at an element's own tag and attributes. *)
Lemma named_setChildren (x : string) (cs : list Element) (e : Element) :
  named x (setChildren cs e) = named x e.
Proof. destruct e. reflexivity. Qed.

Lemma namedElements_children (x : string) (cs : list Element) :
  map nodeId (List.filter (named x) (flat_map (fun c => c :: descendants c) cs)) = []
  <-> Forall (fun c => namedElements x c = []) cs.
Proof.
  induction cs as [|c cs IH].
  - split; [constructor | reflexivity].
  - change (flat_map (fun c0 => c0 :: descendants c0) (c :: cs))
      with ((c :: descendants c) ++ flat_map (fun c0 => c0 :: descendants c0) cs).
    rewrite List.filter_app, map_app. split.
    + intros H. apply app_eq_nil in H. destruct H as [Hc Hcs].
      constructor; [exact Hc | apply IH; exact Hcs].
    + intros H. inversion H as [|? ? Hc Hcs]; subst.
      unfold namedElements, nodes in Hc. rewrite Hc. apply IH. exact Hcs.
Qed.

Lemma namedElements_nil (x : string) (e : Element) :
  namedElements x e = []
  <-> named x e = false ∧ Forall (fun c => namedElements x c = []) (children e).
Proof.
  rewrite <- namedElements_children.
  destruct e as [i t c a s h cs]. unfold namedElements at 1, nodes.
  cbn [descendants children List.filter].
  destruct (named x (mkElement i t c a s h cs)).
  - split; [discriminate | intros [? _]; discriminate].
  - split; [intros H; split; [reflexivity | exact H] | intros [_ H]; exact H].
Qed.

Lemma namedElements_setChildren (x : string) (cs : list Element) (e : Element) :
  named x e = false -> Forall (fun c => namedElements x c = []) cs ->
  namedElements x (setChildren cs e) = [].
Proof.
  intros He Hcs. apply namedElements_nil. rewrite named_setChildren.
  destruct e. split; assumption.
Qed.

(** Work below a node brings no named element where there was none. *)
Lemma namedElements_updateAt (x : string) (p : Path) (f : Element -> Element)
    (e : Element) :
  (forall c, namedElements x c = [] -> namedElements x (f c) = []) ->
  namedElements x e = [] -> namedElements x (updateAt p f e) = [].
Proof.
  intros Hf. revert e. induction p as [|i p IH]; intros e He; simpl.
  - apply Hf, He.
  - destruct (children e !! i) as [c|] eqn:Hc; [|exact He].
    apply namedElements_nil in He. destruct He as [Hn Hcs].
    apply namedElements_setChildren; [exact Hn|].
    apply Forall_insert; [exact Hcs|].
    apply IH. exact (proj1 (Forall_lookup _ _) Hcs i c Hc).
Qed.

Lemma namedElements_removeAt (x : string) (p : Path) (e : Element) :
  namedElements x e = [] -> namedElements x (removeAt p e) = [].
Proof.
  revert e. induction p as [|i p IH]; intros e He; [exact He|].
  pose proof (proj1 (namedElements_nil x e) He) as [Hn Hcs].
  destruct p as [|j p].
  - simpl. apply namedElements_setChildren; [exact Hn|].
    apply Forall_delete, Hcs.
  - rewrite removeAt_below.
    destruct (children e !! i) as [c|] eqn:Hc; [|exact He].
    apply namedElements_setChildren; [exact Hn|].
    apply Forall_insert; [exact Hcs|].
    apply IH. exact (proj1 (Forall_lookup _ _) Hcs i c Hc).
Qed.

Lemma namedElements_removeRating (x : string) (e : Element) :
  namedElements x e = [] -> namedElements x (removeRating e) = [].
Proof.
  intros He. unfold removeRating.
  destruct (querySelector badgeSelector e); [apply namedElements_removeAt|]; exact He.
Qed.

(** The document after work on one node of one of the trees. *)
Lemma document_rendering (removed : option Element) (ref : NodeRef)
    (f : Element -> Element) (s : State) :
  let s' := detach removed (updateNode ref f s) in
  document s' = document s ∨ document s' = updateAt (snd ref) f (document s).
Proof.
  destruct ref as [[|j] p]; unfold detach, updateNode, trees; cbn [fst snd].
  - right. destruct removed; reflexivity.
  - left. simpl. destruct (detached s !! j), removed; reflexivity.
Qed.

Lemma updateAt_fixed (p : Path) (f : Element -> Element) (doc : Element) :
  (forall e, elementAt p doc = Some e -> f e = e) -> updateAt p f doc = doc.
Proof.
  revert doc. induction p as [|i p IH]; intros doc Hfix; simpl.
  - apply Hfix. reflexivity.
  - destruct (children doc !! i) as [c|] eqn:Hc; [|reflexivity].
    rewrite IH.
    + rewrite list_insert_id by exact Hc. destruct doc. reflexivity.
    + intros e He. apply Hfix. simpl. rewrite Hc. exact He.
Qed.

Lemma querySelectorAll_below (sel : Selector) (p : Path) (doc e : Element) :
  elementAt p doc = Some e ->
  querySelectorAll sel doc = [] -> querySelectorAll sel e = [].
Proof.
  revert doc. induction p as [|i p IH]; intros doc; simpl.
  - intros [= ->] Hnone. exact Hnone.
  - destruct (children doc !! i) as [c|] eqn:Hc; [|discriminate].
    intros He Hnone. apply (IH c He).
    destruct doc as [n t cl a s h cs]. simpl in Hc.
    rewrite querySelectorAll_node in Hnone.
    rewrite <- (take_drop_middle cs i c Hc) in Hnone.
    rewrite flat_map_app, List.filter_app in Hnone.
    apply app_eq_nil in Hnone. destruct Hnone as [_ Hnone].
    simpl in Hnone. destruct (matches sel c); [discriminate|].
    rewrite List.filter_app in Hnone. apply app_eq_nil in Hnone. apply Hnone.
Qed.

Lemma removeRating_at_badge_free (card : Path) (doc : Element) :
  badges doc = [] -> updateAt card removeRating doc = doc.
Proof.
  intros Hfree. apply updateAt_fixed. intros e He.
  apply removeRating_without_badge.
  apply (querySelectorAll_below badgeSelector card doc e He Hfree).
Qed.

Lemma existingBadge_without_badge (e : Element) :
  badges e = [] -> existingBadge e = None.
Proof.
  intros Hnone. unfold existingBadge.
  pose proof (querySelector_first badgeSelector e) as Hfirst.
  unfold FirstOfAll in Hfirst.
  destruct (querySelector badgeSelector e) as [p|]; [|reflexivity].
  destruct Hfirst as (b & _ & _ & Hall).
  unfold badges in Hnone. rewrite Hnone in Hall. discriminate.
Qed.

(** With no badge in the document and nothing outside it, taking a badge off
    any node finds nothing to take. *)
Lemma removeRatingAt_badge_free (card : NodeRef) (s : State) :
  badges (document s) = [] -> detached s = [] ->
  let s' := snd (removeRatingAt card s) in
  document s' = document s ∧ detached s' = [].
Proof.
  intros Hfree Hout. destruct card as [[|j] p]; unfold removeRatingAt; cbn [snd].
  - assert (nodeAt (0, p) (trees s) ≫= existingBadge = None) as ->.
    { unfold nodeAt, trees. cbn [fst snd]. simpl.
      destruct (elementAt p (document s)) as [e|] eqn:He; [|reflexivity].
      simpl. apply existingBadge_without_badge.
      apply (querySelectorAll_below badgeSelector p (document s) e He Hfree). }
    unfold detach, updateNode, trees. cbn [fst snd]. simpl.
    split; [apply removeRating_at_badge_free, Hfree | exact Hout].
  - unfold nodeAt, updateNode, trees. cbn [fst snd]. simpl. rewrite Hout. simpl.
    split; [reflexivity | exact Hout].
Qed.

Section WholeScriptFacts.

Context (remote : Remote) (parseHTML : Parser).

(** With an empty cache and no element named [apiUrl], the enter-handler can
    only add to the console. *)
Lemma handleMouseOver_empty_cache (event : MouseEvent) (s : State) :
  ratingCache s = ∅ -> namedElements "apiUrl" (document s) = [] ->
  exists errs, snd (handleMouseOver remote parseHTML event s) = setConsoleErrors errs s.
Proof.
  intros Hempty Hnone. unfold handleMouseOver, mbind, M_bind, getTrees.
  destruct (closestTo (ClassSel "slider-item") event (trees s)) as [movieCard|];
    [|exists (consoleErrors s); symmetry; apply setConsoleErrors_same].
  match goal with |- context [titlePresent ?x] => set (title := x) end.
  destruct (titlePresent title) eqn:Hp;
    [|exists (consoleErrors s); symmetry; apply setConsoleErrors_same].
  destruct title as [t|]; [|discriminate].
  assert (t ≠ "") as Ht by (intros ->; discriminate).
  rewrite (fetchRating_miss remote t s Ht) by
    first [rewrite Hempty; apply lookup_empty | exact Hnone].
  simpl. eexists. reflexivity.
Qed.

Lemma fireTimer_quiet (s : State) (t : Timer) :
  ratingCache s = ∅ -> namedElements "apiUrl" (document s) = [] ->
  let s' := fireTimer remote parseHTML s t in
  ratingCache s' = ∅ ∧ requests s' = requests s ∧ nextNodeId s' = nextNodeId s ∧
  document s' = document s ∧ detached s' = detached s.
Proof.
  intros Hempty Hnone. unfold fireTimer.
  destruct (existsb _ (timers s)); [|simpl; repeat split; exact Hempty].
  unfold timerCallback. destruct (callbackFunc t). cbn [apply].
  match goal with |- context [handleMouseOver remote parseHTML ?ev ?s0] =>
    destruct (handleMouseOver_empty_cache ev s0 Hempty Hnone) as [errs ->]
  end.
  simpl. repeat split. exact Hempty.
Qed.

Lemma fireTimers_quiet (due : list Timer) (s : State) :
  ratingCache s = ∅ -> namedElements "apiUrl" (document s) = [] ->
  let s' := foldl (fireTimer remote parseHTML) s due in
  ratingCache s' = ∅ ∧ requests s' = requests s ∧ nextNodeId s' = nextNodeId s ∧
  document s' = document s ∧ detached s' = detached s.
Proof.
  revert s. induction due as [|t due IH]; intros s Hempty Hnone;
    [simpl; repeat split; exact Hempty|].
  destruct (fireTimer_quiet s t Hempty Hnone) as (Hc & Hr & Hn & Hd & Ho).
  destruct (IH _ Hc) as (Hc' & Hr' & Hn' & Hd' & Ho'); [rewrite Hd; exact Hnone|].
  simpl. repeat split; congruence.
Qed.

Lemma advance_quiet (dt : nat) (s : State) :
  ratingCache s = ∅ -> namedElements "apiUrl" (document s) = [] ->
  let s' := advance remote parseHTML dt s in
  ratingCache s' = ∅ ∧ requests s' = requests s ∧ nextNodeId s' = nextNodeId s ∧
  document s' = document s ∧ detached s' = detached s.
Proof.
  intros Hempty Hnone. unfold advance. simpl. apply fireTimers_quiet; assumption.
Qed.

(** The listeners themselves read no cache and create nothing; the
    leave-handler is the only one to touch the trees. *)
Lemma listener_quiet (i : Input) (s : State) :
  let s' := snd (listener i s) in
  ratingCache s' = ratingCache s ∧ requests s' = requests s ∧
  nextNodeId s' = nextNodeId s ∧
  (namedElements "apiUrl" (document s) = [] ->
   namedElements "apiUrl" (document s') = []) ∧
  (badges (document s) = [] -> detached s = [] ->
   document s' = document s ∧ detached s' = []).
Proof.
  destruct i as [event | event]; cbn [listener].
  - unfold debounce, mbind, M_bind, getDebounceTimer, clearTimeout.
    destruct (debounceTimer s); simpl; repeat split; auto.
  - unfold handleMouseOut, mbind, M_bind, getTrees, getDebounceTimer.
    destruct (closestTo (ClassSel "slider-item") event (trees s)) as [card|];
      [|simpl; repeat split; auto].
    pose proof (clearTimeout_normal (debounceTimer s) s) as Hnormal.
    assert (exists ts, snd (clearTimeout (debounceTimer s) s) = setTimers ts s)
      as [ts Hts].
    { unfold clearTimeout. destruct (debounceTimer s); simpl;
        [eexists; reflexivity|].
      exists (timers s). destruct s; reflexivity. }
    destruct (clearTimeout (debounceTimer s) s) as [[[]|e] s1]; simpl in Hnormal, Hts;
      [|discriminate].
    subst s1.
    destruct (rendering_frame
                (nodeAt card (trees (setTimers ts s)) ≫= existingBadge) card
                removeRating (setTimers ts s))
      as (_ & _ & _ & _ & Hca & Hrq & _ & Hid & _).
    unfold removeRatingAt. cbn [snd].
    split; [exact Hca|]. split; [exact Hrq|]. split; [exact Hid|]. split.
    + intros Hnone.
      destruct (document_rendering
                  (nodeAt card (trees (setTimers ts s)) ≫= existingBadge) card
                  removeRating (setTimers ts s)) as [-> | ->]; [exact Hnone|].
      apply namedElements_updateAt; [apply namedElements_removeRating | exact Hnone].
    + intros Hfree Hout.
      apply (removeRatingAt_badge_free card (setTimers ts s) Hfree Hout).
Qed.

Lemma run_quiet (trace : list (nat * Input)) (s : State) :
  ratingCache s = ∅ -> namedElements "apiUrl" (document s) = [] ->
  let s' := run remote parseHTML s trace in
  ratingCache s' = ∅ ∧ requests s' = requests s ∧ nextNodeId s' = nextNodeId s ∧
  namedElements "apiUrl" (document s') = [] ∧
  (badges (document s) = [] -> detached s = [] ->
   document s' = document s ∧ detached s' = []).
Proof.
  revert s. induction trace as [|x trace IH]; intros s Hempty Hnone;
    [simpl; repeat split; auto|].
  destruct (advance_quiet (fst x) s Hempty Hnone) as (Hc1 & Hr1 & Hn1 & Hd1 & Ho1).
  destruct (listener_quiet (snd x) (advance remote parseHTML (fst x) s))
    as (Hc2 & Hr2 & Hn2 & Hd2 & Hb2).
  assert (ratingCache (step remote parseHTML s x) = ∅) as Hc by (unfold step; congruence).
  assert (namedElements "apiUrl" (document (step remote parseHTML s x)) = []) as Hd.
  { unfold step. apply Hd2. rewrite Hd1. exact Hnone. }
  destruct (IH (step remote parseHTML s x) Hc Hd) as (Hc' & Hr' & Hn' & Hd' & Hb').
  change (run remote parseHTML s (x :: trace))
    with (run remote parseHTML (step remote parseHTML s x) trace).
  simpl. split; [exact Hc'|].
  split; [unfold step in *; congruence|].
  split; [unfold step in *; congruence|].
  split; [exact Hd'|].
  intros Hfree Hout.
  assert (document (step remote parseHTML s x) = document s
          ∧ detached (step remote parseHTML s x) = []) as [Hsame Hout'].
  { unfold step. rewrite <- Hd1. apply Hb2; [rewrite Hd1; exact Hfree|].
    rewrite Ho1. exact Hout. }
  destruct Hb' as [Hdoc Hdet]; [rewrite Hsame; exact Hfree | exact Hout'|].
  split; [congruence | exact Hdet].
Qed.

End WholeScriptFacts.

(** X9.  On a page that has no element with the id or the name [apiUrl],
    whatever the user does and whatever the service would answer, the script
    never issues a request, never puts a rating into its cache and never
    creates an element. *)
Theorem script_never_requests
    (remote : Remote) (parseHTML : Parser) (doc : Element) (fresh : nat)
    (trace : list (nat * Input)) (dt : nat) :
  namedElements "apiUrl" doc = [] ->
  let s := advance remote parseHTML dt
             (run remote parseHTML (initialState doc fresh) trace) in
  ratingCache s = ∅ ∧ requests s = [] ∧ nextNodeId s = fresh.
Proof.
  intros Hnone.
  destruct (run_quiet remote parseHTML trace (initialState doc fresh) eq_refl Hnone)
    as (Hc & Hr & Hn & Hd & _).
  destruct (advance_quiet remote parseHTML dt _ Hc Hd) as (Hc' & Hr' & Hn' & _).
  simpl in Hr, Hn. intros s. subst s.
  split; [exact Hc'|]. split; congruence.
Qed.

(** On the sample page: a pointer-enter on the link, the wait that lets the
    timer fire, and a pointer-leave; on the page that has an element of that
    id the same run does issue a request. *)
Lemma script_never_requests_witness :
  namedElements "apiUrl" samplePage = [] ∧
  requests (advance ratedRemote sampleParser 50
              (run ratedRemote sampleParser (initialState samplePage 10)
                   [(5, MouseOver (mkMouseEvent 2)); (400, MouseOut (mkMouseEvent 2))]))
  = [] ∧
  requests (advance ratedRemote sampleParser 50
              (run ratedRemote sampleParser (initialState namedPage 10)
                   [(5, MouseOver (mkMouseEvent 2)); (400, MouseOut (mkMouseEvent 2))]))
  = [Named [7]].
Proof.
  split; [reflexivity|]. split; [|reflexivity].
  apply (script_never_requests ratedRemote sampleParser samplePage 10
           [(5, MouseOver (mkMouseEvent 2)); (400, MouseOut (mkMouseEvent 2))] 50).
  reflexivity.
Defined.

(** X10.  On a page that has no element of the badge class and no element with
    the id or the name [apiUrl], the script never changes the document and
    leaves no node outside it: no pointer event and no wait puts a badge on a
    card or takes anything away. *)
Theorem script_leaves_badge_free_page
    (remote : Remote) (parseHTML : Parser) (doc : Element) (fresh : nat)
    (trace : list (nat * Input)) (dt : nat) :
  badges doc = [] -> namedElements "apiUrl" doc = [] ->
  let s := advance remote parseHTML dt
             (run remote parseHTML (initialState doc fresh) trace) in
  document s = doc ∧ detached s = [].
Proof.
  intros Hfree Hnone.
  destruct (run_quiet remote parseHTML trace (initialState doc fresh) eq_refl Hnone)
    as (Hc & _ & _ & Hd & Hb).
  destruct (Hb Hfree eq_refl) as [Hdoc Hdet].
  change (document (initialState doc fresh)) with doc in Hdoc.
  destruct (advance_quiet remote parseHTML dt _ Hc Hd) as (_ & _ & _ & Hd' & Ho').
  intros s. subst s. split; congruence.
Qed.

(** On the sample page, for the same run. *)
Lemma script_leaves_badge_free_page_witness :
  badges samplePage = [] ∧ namedElements "apiUrl" samplePage = [] ∧
  document (advance ratedRemote sampleParser 50
              (run ratedRemote sampleParser (initialState samplePage 10)
                   [(5, MouseOver (mkMouseEvent 2)); (400, MouseOut (mkMouseEvent 2))]))
  = samplePage.
Proof.
  split; [reflexivity|]. split; [reflexivity|].
  apply (script_leaves_badge_free_page ratedRemote sampleParser samplePage 10
           [(5, MouseOver (mkMouseEvent 2)); (400, MouseOut (mkMouseEvent 2))] 50);
    reflexivity.
Defined.

(** ** Slow hovering *)

Lemma slowCalls_length (now : nat) (pending : MouseEvent) (burst : list (nat * MouseEvent)) :
  length (slowCalls now pending burst) = length burst.
Proof.
  revert now pending. induction burst as [|[d e] burst IH]; intros now pending;
    [reflexivity|].
  simpl. rewrite IH. reflexivity.
Qed.

(** When each pointer-enter comes at least the quiet period after the one
    before, the timer of the earlier one has fired by then. *)
Lemma slow_burst_fires (remote : Remote) (parseHTML : Parser)
    (burst : list (nat * MouseEvent)) (s : State) (id : nat) (event : MouseEvent) :
  Forall (fun x => quietPeriod ≤ fst x) burst ->
  timers s = [mkTimer id (clock s + quietPeriod) HandleMouseOver event] ->
  debounceTimer s = Some id ->
  let s' := run remote parseHTML s (mouseOvers burst) in
  (exists id', timers s' = [mkTimer id' (clock s' + quietPeriod) HandleMouseOver
                                    (List.last (map snd burst) event)]
               ∧ debounceTimer s' = Some id') ∧
  enterCalls s' = enterCalls s ++ slowCalls (clock s) event burst.
Proof.
  revert s id event. induction burst as [|[d e] burst IH]; intros s id event HF Ht Hd.
  - simpl. rewrite app_nil_r. split; [exists id; split; assumption | reflexivity].
  - inversion HF as [|? ? Hslow HF']; subst. simpl in Hslow.
    change (run remote parseHTML s (mouseOvers ((d, e) :: burst)))
      with (run remote parseHTML (step remote parseHTML s (d, MouseOver e))
                (mouseOvers burst)).
    destruct (advance_fires remote parseHTML d s _ Ht) as (Ht0 & _ & Hk0 & He0);
      [simpl; lia|].
    simpl in He0.
    assert (TimerInvariant (advance remote parseHTML d s)) as Hinv by (left; exact Ht0).
    pose proof (debounce_replaces HandleMouseOver quietPeriod e _ Hinv) as Hnew.
    simpl in Hnew. destruct Hnew as (Ht1 & Hd1 & Hk1 & He1).
    destruct (IH (step remote parseHTML s (d, MouseOver e))
                 (nextTimerId (advance remote parseHTML d s)) e HF') as (Harmed & Hcalls).
    + unfold step. cbn [fst snd listener]. rewrite Ht1, Hk1. reflexivity.
    + unfold step. cbn [fst snd listener]. exact Hd1.
    + split.
      * cbn [map snd]. rewrite last_cons_default. exact Harmed.
      * rewrite Hcalls. unfold step. cbn [fst snd listener].
        rewrite He1, He0, Hk1. rewrite ?Hk0. simpl. rewrite <- app_assoc. reflexivity.
Qed.

(** X11.  Debouncing drops nothing from slow hovering: when each pointer-enter
    of a run comes at least the quiet period of 300 after the one before, every
    event but the last has had its own invocation of the enter-handler, made
    300 after it, before the next event arrives, and the last event's timer is
    the one pending. *)
Theorem debounce_keeps_slow_hovers
    (remote : Remote) (parseHTML : Parser) (doc : Element) (fresh : nat)
    (trace : list (nat * Input)) (d1 : nat) (e1 : MouseEvent)
    (burst : list (nat * MouseEvent)) :
  Forall (fun x => quietPeriod ≤ fst x) burst ->
  let before := run remote parseHTML (initialState doc fresh) trace in
  let first := step remote parseHTML before (d1, MouseOver e1) in
  let s := run remote parseHTML before ((d1, MouseOver e1) :: mouseOvers burst) in
  enterCalls s = enterCalls first ++ slowCalls (clock first) e1 burst ∧
  length (enterCalls s) = length (enterCalls first) + length burst ∧
  (exists id, timers s = [mkTimer id (clock s + quietPeriod) HandleMouseOver
                                  (List.last (map snd burst) e1)]
              ∧ debounceTimer s = Some id).
Proof.
  intros HF before first s.
  assert (TimerInvariant (advance remote parseHTML d1 before)) as Hadv.
  { apply advance_invariant, run_invariant, initialState_invariant. }
  pose proof (debounce_replaces HandleMouseOver quietPeriod e1 _ Hadv) as Hfirst.
  simpl in Hfirst. destruct Hfirst as (Ht & Hd & Hk & _).
  destruct (slow_burst_fires remote parseHTML burst first
              (nextTimerId (advance remote parseHTML d1 before)) e1 HF)
    as (Harmed & Hcalls).
  { unfold first, step. cbn [fst snd listener]. rewrite Ht, Hk. reflexivity. }
  { unfold first, step. cbn [fst snd listener]. exact Hd. }
  change (run remote parseHTML first (mouseOvers burst)) with s in Harmed, Hcalls.
  split; [exact Hcalls|]. split; [|exact Harmed].
  rewrite Hcalls, length_app, slowCalls_length. reflexivity.
Qed.

(** Pointer-enter events at times 5, 305 and 1005: calls at 305 and 605. *)
Lemma debounce_keeps_slow_hovers_witness :
  Forall (fun x => quietPeriod ≤ fst x) [(300, mkMouseEvent 1); (700, mkMouseEvent 2)] ∧
  enterCalls
    (run ratedRemote sampleParser (initialState samplePage 10)
         ((5, MouseOver (mkMouseEvent 2))
            :: mouseOvers [(300, mkMouseEvent 1); (700, mkMouseEvent 2)]))
  = [(305, mkMouseEvent 2); (605, mkMouseEvent 1)].
Proof.
  assert (Forall (fun x => quietPeriod ≤ fst x)
                 [(300, mkMouseEvent 1); (700, mkMouseEvent 2)]) as HF.
  { repeat constructor; unfold quietPeriod; simpl; lia. }
  split; [exact HF|].
  destruct (debounce_keeps_slow_hovers ratedRemote sampleParser samplePage 10 [] 5
              (mkMouseEvent 2) [(300, mkMouseEvent 1); (700, mkMouseEvent 2)] HF)
    as (Hcalls & _).
  refine (eq_trans Hcalls _). reflexivity.
Defined.

(** ** What is logged, and how many badges *)

(** X14.  While the cache is empty and the page has no element with the id or
    the name [apiUrl], a sequence of [fetchRating] calls writes exactly one
    [ReferenceError] to the console for each call that has a non-empty title,
    and nothing for the others. *)
Theorem fetchEach_console (remote : Remote) (s : State) (titles : list (option string)) :
  ratingCache s = ∅ ->
  namedElements "apiUrl" (document s) = [] ->
  consoleErrors (fetchEach remote s titles)
  = consoleErrors s
      ++ map (fun _ => ReferenceError "apiUrl") (List.filter titlePresent titles).
Proof.
  revert s. induction titles as [|title titles IH]; intros s Hempty Hnone; simpl.
  - rewrite app_nil_r. reflexivity.
  - fold (fetchEach remote (snd (fetchRating remote title s)) titles).
    destruct (titlePresent title) eqn:Hp.
    + destruct title as [t|]; [|discriminate].
      assert (t ≠ "") as Ht by (intros ->; discriminate).
      rewrite (fetchRating_miss remote t s Ht) by
        first [rewrite Hempty; apply lookup_empty | exact Hnone].
      cbn [snd]. rewrite IH by assumption.
      simpl. rewrite <- app_assoc. reflexivity.
    + rewrite (fetchRating_absent remote title s Hp). cbn [snd].
      apply IH; assumption.
Qed.

(** Three calls, one of them without a title. *)
Lemma fetchEach_console_witness :
  ratingCache (initialState samplePage 10) = ∅ ∧
  namedElements "apiUrl" (document (initialState samplePage 10)) = [] ∧
  consoleErrors (fetchEach ratedRemote (initialState samplePage 10)
                           [Some "Title A"; None; Some "Title A"])
  = [ReferenceError "apiUrl"; ReferenceError "apiUrl"].
Proof.
  split; [reflexivity|]. split; [reflexivity|].
  refine (eq_trans (fetchEach_console ratedRemote (initialState samplePage 10)
                      [Some "Title A"; None; Some "Title A"] eq_refl eq_refl) _).
  reflexivity.
Defined.

(** X15.  Whatever a target carries, [displayRating] on it leaves, apart from
    the elements of the badge class that the rating's own text brings into the
    new badge, never more badges below it than there were, one at least being
    allowed; with a falsy rating it leaves fewer whenever there was one. *)
Theorem displayRating_badge_count
    (parseHTML : Parser) (fresh : nat) (targetElement : Element) (rating : Value) :
  length (badges (displayRating parseHTML fresh targetElement rating))
  ≤ Nat.max 1 (length (badges targetElement))
    + length (badges (createBadge parseHTML fresh rating)) ∧
  (truthy rating = false ->
   length (badges (displayRating parseHTML fresh targetElement rating))
   ≤ pred (length (badges targetElement))).
Proof.
  pose proof (removeRating_fewer targetElement) as Hfewer.
  rewrite displayRating_badges_general. destruct (truthy rating).
  - split; [|discriminate]. rewrite length_app. simpl. lia.
  - split; [lia | intros _; exact Hfewer].
Qed.

(** On the outer of two nested cards that has come to carry two badges, and
    with a rating whose text carries an element of the badge class. *)
Lemma displayRating_badge_count_witness :
  let outer := sampleCard [innerCard; createBadge sampleParser 10 (VStr "1");
                           createBadge sampleParser 12 (VStr "3")] in
  length (badges outer) = 2 ∧
  length (badges (displayRating sampleParser 13 outer (VStr "4"))) ≤ 2 ∧
  length (badges (displayRating sampleParser 13 outer (VStr markupRating))) ≤ 3 ∧
  length (badges (displayRating sampleParser 13 outer VNull)) ≤ 1.
Proof.
  intros outer.
  destruct (displayRating_badge_count sampleParser 13 outer (VStr "4")) as [Hmax _].
  destruct (displayRating_badge_count sampleParser 13 outer (VStr markupRating))
    as [Hmarkup _].
  destruct (displayRating_badge_count sampleParser 13 outer VNull) as [_ Hfalsy].
  split; [reflexivity|]. split; [exact Hmax|]. split; [exact Hmarkup|].
  exact (Hfalsy eq_refl).
Defined.
